(** * CKPE_Config.py: the comment-preserving INI parser and the line-addressed writer

    A shallow embedding of [parse_comments], [parse_ini_with_comments] and of
    the rewriting loop of [ConfigEditor.save_ini], followed by the properties
    of the parse/edit/serialise model.

    Conventions of the embedding.
    - A Python [str] is a list of Unicode code points ([char := N]).
    - The parser works on the list [lines] that [f.readlines()] returned and
      the writer hands a list of lines to [f.writelines]; decoding and newline
      translation belong to the file object and are not part of this model.
    - [self.widgets] is a dictionary keyed by [(section.name, entry.name)]; a
      widget is reduced to the state [save_ini] reads back from it.
    - Exceptions are values of an error monad. *)

From Stdlib Require Import ZArith NArith Ascii String DecimalString Sorted.
From stdpp Require Import base tactics option list sorting gmap.

Local Open Scope list_scope.

(** ** Python strings *)

Definition char : Type := N.
Definition str : Type := list char.

Fixpoint str_of (s : string) : str :=
  match s with
  | EmptyString => []
  | String a r => N_of_ascii a :: str_of r
  end.

Definition TAB : char := 9%N.
Definition NL : char := 10%N.
Definition SPACE : char := 32%N.
Definition SEMI : char := 59%N.
Definition EQUALS : char := 61%N.
Definition LBRACKET : char := 91%N.
Definition RBRACKET : char := 93%N.

(** [str.isspace] on one code point: the characters CPython's
    [_PyUnicode_IsWhitespace] accepts. *)
Definition isspace (c : char) : bool :=
  ((9 <=? c) && (c <=? 13) || (28 <=? c) && (c <=? 32)
   || (c =? 133) || (c =? 160) || (c =? 5760)
   || (8192 <=? c) && (c <=? 8202)
   || (c =? 8232) || (c =? 8233) || (c =? 8239) || (c =? 8287)
   || (c =? 12288))%N.

(** [s.lstrip()], [s.rstrip()], [s.strip()] *)
Fixpoint lstrip (s : str) : str :=
  match s with
  | [] => []
  | c :: r => if isspace c then lstrip r else s
  end.

Definition rstrip (s : str) : str := rev (lstrip (rev s)).

Definition strip (s : str) : str := rstrip (lstrip s).

(** [s.startswith(c)] and [s.endswith(c)] for a one-character argument *)
Definition startswith (c : char) (s : str) : bool :=
  match s with
  | [] => false
  | x :: _ => (x =? c)%N
  end.

Definition endswith (c : char) (s : str) : bool := startswith c (rev s).

(** [c in s] *)
Definition contains (c : char) (s : str) : bool := existsb (N.eqb c) s.

(** [not s] *)
Definition is_empty (s : str) : bool :=
  match s with
  | [] => true
  | _ => false
  end.

(** [s[1:]] and [s[1:-1]] *)
Definition slice_from_1 (s : str) : str := tail s.
Definition slice_1_to_last (s : str) : str := removelast (tail s).

(** [s.split(sep, 1)]: at most one split, at the first occurrence of [sep];
    a one-element list when [sep] does not occur. *)
Fixpoint split_1 (sep : char) (s : str) : list str :=
  match s with
  | [] => [[]]
  | c :: r =>
      if (c =? sep)%N then [[]; r]
      else match split_1 sep r with
           | a :: rest => (c :: a) :: rest
           | [] => [[c]]
           end
  end.

(** [sep.join(parts)] *)
Fixpoint join (sep : str) (parts : list str) : str :=
  match parts with
  | [] => []
  | [p] => p
  | p :: rest => p ++ sep ++ join sep rest
  end.

(** [str(n)] for a Python [int] *)
Definition str_of_int (n : Z) : str := str_of (NilZero.string_of_int (Z.to_int n)).

(** ** The document model *)

Module ConfigEntry.
Record t : Type := mk
  { name : str;
    value : str;
    tooltip : str;
    line_number : Z;
    inline_comment : str }.
End ConfigEntry.

Module ConfigSection.
Record t : Type := mk
  { name : str;
    tooltip : str;
    line_number : Z;
    entries : list ConfigEntry.t }.
End ConfigSection.

(** ** parse_comments *)

(** The [while] loop of [parse_comments]; [n] is [idx + 1], so [idx >= 0] is
    [n <> 0], and [comments.insert(0, x)] is a cons. *)
Fixpoint parse_comments_loop (lines : list str) (n : nat) (comments : list str)
  : list str :=
  match n with
  | O => comments
  | S idx =>
      let stripped := strip (nth idx lines []) in
      if startswith SEMI stripped || is_empty stripped then
        parse_comments_loop lines idx
          (if startswith SEMI stripped
           then strip (slice_from_1 stripped) :: comments
           else comments)
      else comments
  end.

Definition parse_comments (lines : list str) (start_idx : nat) : str :=
  join [NL] (parse_comments_loop lines start_idx []).

(** ** parse_ini_with_comments *)

(** [current_section] is the object most recently appended to [sections]
    ([None] before the first header): the two names alias one object, so
    appending to [current_section.entries] changes the last element of
    [sections]. *)
Definition current_section (sections : list ConfigSection.t)
  : option ConfigSection.t := last sections.

Definition add_entry (e : ConfigEntry.t) (s : ConfigSection.t) : ConfigSection.t :=
  ConfigSection.mk (ConfigSection.name s) (ConfigSection.tooltip s)
    (ConfigSection.line_number s) (ConfigSection.entries s ++ [e]).

(** [current_section.entries.append(entry)] *)
Fixpoint append_entry (e : ConfigEntry.t) (sections : list ConfigSection.t)
  : list ConfigSection.t :=
  match sections with
  | [] => []
  | [s] => [add_entry e s]
  | s :: rest => s :: append_entry e rest
  end.

(** The body of the [elif '=' in line and current_section] branch. *)
Definition make_entry (lines : list str) (i : nat) (name value : str)
  : ConfigEntry.t :=
  let name := strip name in
  let value := strip value in
  let tooltip := parse_comments lines i in
  if contains SEMI value then
    match split_1 SEMI value with
    | [value; inline_comment] =>
        let value := strip value in
        let tooltip :=
          if is_empty tooltip then strip inline_comment
          else tooltip ++ [NL] ++ strip inline_comment in
        ConfigEntry.mk name value tooltip (Z.of_nat i) (strip inline_comment)
    | _ => ConfigEntry.mk name value tooltip (Z.of_nat i) []
    end
  else ConfigEntry.mk name value tooltip (Z.of_nat i) [].

(** One iteration of [for i, line in enumerate(lines)]. *)
Definition parse_line (lines : list str) (sections : list ConfigSection.t)
  (i : nat) (raw : str) : list ConfigSection.t :=
  let line := strip raw in
  if is_empty line || startswith SEMI line then sections
  else if startswith LBRACKET line && endswith RBRACKET line then
    sections ++
      [ConfigSection.mk (slice_1_to_last line) (parse_comments lines i)
         (Z.of_nat i) []]
  else if contains EQUALS line && bool_decide (is_Some (current_section sections))
  then
    match split_1 EQUALS line with
    | [name; value] => append_entry (make_entry lines i name value) sections
    | _ => sections
    end
  else sections.

Fixpoint parse_loop (lines : list str) (i : nat) (rest : list str)
  (sections : list ConfigSection.t) : list ConfigSection.t :=
  match rest with
  | [] => sections
  | raw :: rest' => parse_loop lines (S i) rest' (parse_line lines sections i raw)
  end.

Definition parse_ini_with_comments (lines : list str)
  : list ConfigSection.t * list str :=
  (parse_loop lines 0 lines [], lines).

(** ** ConfigEditor.save_ini *)

(** The widget classes [create_widget_for_value] instantiates, each with the
    state that [save_ini] reads back. *)
Inductive Widget : Type :=
  | QCheckBox (isChecked : bool)
  | QSpinBox (value : Z)
  | QComboBox (currentData : option Z)
  | QLineEdit (text : str).

Inductive exn : Type := KeyError | IndexError.

Inductive result (A : Type) : Type :=
  | Ok (a : A)
  | Raise (e : exn).
Arguments Ok {A} a.
Arguments Raise {A} e.

#[global] Instance result_ret : MRet result := fun A a => Ok a.

#[global] Instance result_bind : MBind result := fun A B k m =>
  match m with
  | Ok a => k a
  | Raise e => Raise e
  end.

(** [self.widgets[key]] *)
Definition widget_at (widgets : gmap (str * str) Widget) (key : str * str)
  : result Widget :=
  match widgets !! key with
  | Some w => Ok w
  | None => Raise KeyError
  end.

(** The position [xs[n]] addresses in a list of length [len]: a negative [n]
    counts from the end, anything outside [-len, len) raises. *)
Definition py_index (n : Z) (len : nat) : result nat :=
  if (0 <=? n)%Z then
    if (n <? Z.of_nat len)%Z then Ok (Z.to_nat n) else Raise IndexError
  else
    if (- Z.of_nat len <=? n)%Z then Ok (Z.to_nat (Z.of_nat len + n))
    else Raise IndexError.

(** The [isinstance] dispatch that turns a widget into the value text. *)
Definition widget_value (w : Widget) : str :=
  match w with
  | QCheckBox b => if b then str_of "true" else str_of "false"
  | QSpinBox n => str_of_int n
  | QComboBox (Some n) => str_of_int n
  | QComboBox None => str_of "None"
  | QLineEdit t => t
  end.

(** [new_line] of the loop body *)
Definition new_line (entry : ConfigEntry.t) (value : str) : str :=
  if is_empty (ConfigEntry.inline_comment entry) then
    ConfigEntry.name entry ++ [EQUALS] ++ value
  else
    ConfigEntry.name entry ++ [EQUALS] ++ value
      ++ [TAB; TAB; TAB; SEMI; SPACE] ++ ConfigEntry.inline_comment entry.

(** [leading_space] of the loop body *)
Definition leading_space (old : str) : nat := length old - length (lstrip old).

(** The text assigned to [new_lines[entry.line_number]]. *)
Definition rewritten (old : str) (entry : ConfigEntry.t) (value : str) : str :=
  replicate (leading_space old) SPACE ++ new_line entry value ++ [NL].

(** The body of [for entry in section.entries]. *)
Definition save_entry (widgets : gmap (str * str) Widget) (section_name : str)
  (new_lines : list str) (entry : ConfigEntry.t) : result (list str) :=
  widget ← widget_at widgets (section_name, ConfigEntry.name entry);
  idx ← py_index (ConfigEntry.line_number entry) (length new_lines);
  Ok (<[idx := rewritten (nth idx new_lines []) entry (widget_value widget)]>
        new_lines).

Fixpoint save_entries (widgets : gmap (str * str) Widget) (section_name : str)
  (entries : list ConfigEntry.t) (new_lines : list str) : result (list str) :=
  match entries with
  | [] => Ok new_lines
  | entry :: rest =>
      new_lines' ← save_entry widgets section_name new_lines entry;
      save_entries widgets section_name rest new_lines'
  end.

Fixpoint save_sections (widgets : gmap (str * str) Widget)
  (sections : list ConfigSection.t) (new_lines : list str) : result (list str) :=
  match sections with
  | [] => Ok new_lines
  | section :: rest =>
      new_lines' ← save_entries widgets (ConfigSection.name section)
                      (ConfigSection.entries section) new_lines;
      save_sections widgets rest new_lines'
  end.

(** The lines handed to [f.writelines]: [new_lines] starts as a copy of
    [self.original_lines]. *)
Definition save_lines (original_lines : list str)
  (sections : list ConfigSection.t) (widgets : gmap (str * str) Widget)
  : result (list str) :=
  save_sections widgets sections original_lines.

(** [save_ini] on the content of the file: the file is opened for writing only
    after the loop has finished, so an exception leaves it as it was. *)
Definition save_ini (original_lines : list str)
  (sections : list ConfigSection.t) (widgets : gmap (str * str) Widget)
  (file : list str) : list str :=
  match save_lines original_lines sections widgets with
  | Ok new_lines => new_lines
  | Raise _ => file
  end.

(** ** Vocabulary of the statements *)

(** The three tests of the loop body, on a raw line. *)
Definition is_skipped (raw : str) : bool :=
  is_empty (strip raw) || startswith SEMI (strip raw).

Definition is_header (raw : str) : bool :=
  startswith LBRACKET (strip raw) && endswith RBRACKET (strip raw).

Definition is_assignment (raw : str) : bool :=
  negb (is_skipped raw) && negb (is_header raw) && contains EQUALS (strip raw).

(** The recorded line numbers in the order a traversal of the model meets
    them: a section, then its entries, then the next section. *)
Definition traversal (doc : list ConfigSection.t) : list Z :=
  flat_map (fun s => ConfigSection.line_number s
                     :: map ConfigEntry.line_number (ConfigSection.entries s)) doc.

Definition all_entries (doc : list ConfigSection.t) : list ConfigEntry.t :=
  flat_map ConfigSection.entries doc.

Definition headers (doc : list ConfigSection.t) : list (str * Z) :=
  map (fun s => (ConfigSection.name s, ConfigSection.line_number s)) doc.

(** The iterations of the nested [for] loops of [save_ini], in order: the
    name of the section and the entry. *)
Definition jobs (doc : list ConfigSection.t) : list (str * ConfigEntry.t) :=
  flat_map (fun s => map (pair (ConfigSection.name s)) (ConfigSection.entries s))
    doc.

Definition key_of (job : str * ConfigEntry.t) : str * str :=
  (job.1, ConfigEntry.name job.2).

(** Every entry of the document has a widget ([refresh_ui] binds one to each
    [(section.name, entry.name)]). *)
Definition covers (widgets : gmap (str * str) Widget)
  (doc : list ConfigSection.t) : bool :=
  forallb (fun job => bool_decide (is_Some (widgets !! key_of job))) (jobs doc).

(** The invariant of the scan: before line [n] is read, the traversal of the
    model is strictly increasing and stays below [n]. *)
Definition scanned (n : nat) (doc : list ConfigSection.t) : Prop :=
  StronglySorted Z.lt (traversal doc)
  /\ Forall (fun z => (0 <= z < Z.of_nat n)%Z) (traversal doc).

(** The nested loops of [save_ini] as one loop over [jobs]. *)
Fixpoint save_jobs (widgets : gmap (str * str) Widget)
  (js : list (str * ConfigEntry.t)) (new_lines : list str) : result (list str) :=
  match js with
  | [] => Ok new_lines
  | job :: rest =>
      new_lines' ← save_entry widgets job.1 new_lines job.2;
      save_jobs widgets rest new_lines'
  end.

(** The line numbers that index no element of a list of length [len]. *)
Definition out_of_range (n : Z) (len : nat) : bool :=
  ((n <? - Z.of_nat len) || (Z.of_nat len <=? n))%Z.

(** The number of positions at which two lists of lines differ. *)
Fixpoint count_diff (xs ys : list str) : nat :=
  match xs, ys with
  | x :: xs', y :: ys' =>
      (if bool_decide (x = y) then 0 else 1) + count_diff xs' ys'
  | [], _ => length ys
  | _, [] => length xs
  end.

(** A line of text with its newline, as [readlines] returns it. *)
Definition line (s : string) : str := str_of s ++ [NL].

(** ** ConfigEditor.create_widget_for_value, refresh_ui and load_ini *)

(** The calls into Python and Qt whose results the editor acts on.  Their
    behaviour is not part of this program, so it is left open here and the
    properties below hold whatever these functions do. *)
Record Library : Type := mkLibrary
  { (** [int(s)], [None] when it raises *)
    py_int : str -> option Z;
    (** [s.lower()] *)
    py_lower : str -> str;
    (** [s.isdigit()] *)
    py_isdigit : str -> bool;
    (** [QSpinBox()], [setMaximum(999999)], [setValue(n)]: what [value()]
        returns afterwards, [None] when a call raises *)
    spin_box : Z -> option Z;
    (** [QComboBox()], [addItem(name, data)] for each item,
        [setCurrentIndex(findData(n))]: what [currentData()] returns
        afterwards, [None] when a call raises *)
    combo_box : list (str * Z) -> Z -> option (option Z) }.

(** The [charsets] and [themes] dictionaries, in insertion order. *)
Definition charsets : list (str * Z) :=
  [ (str_of "ANSI_CHARSET", 0%Z); (str_of "DEFAULT_CHARSET", 1%Z);
    (str_of "SYMBOL_CHARSET", 2%Z); (str_of "SHIFTJIS_CHARSET", 128%Z);
    (str_of "HANGEUL_CHARSET", 129%Z); (str_of "GB2312_CHARSET", 134%Z);
    (str_of "CHINESEBIG5_CHARSET", 136%Z); (str_of "OEM_CHARSET", 255%Z);
    (str_of "JOHAB_CHARSET", 130%Z); (str_of "HEBREW_CHARSET", 177%Z);
    (str_of "ARABIC_CHARSET", 178%Z); (str_of "GREEK_CHARSET", 161%Z);
    (str_of "TURKISH_CHARSET", 162%Z); (str_of "VIETNAMESE_CHARSET", 163%Z);
    (str_of "THAI_CHARSET", 222%Z); (str_of "EASTEUROPE_CHARSET", 238%Z);
    (str_of "RUSSIAN_CHARSET", 204%Z); (str_of "MAC_CHARSET", 77%Z);
    (str_of "BALTIC_CHARSET", 186%Z) ].

Definition themes : list (str * Z) :=
  [ (str_of "Lighter", 0%Z); (str_of "Darker", 1%Z); (str_of "Custom", 2%Z) ].

(** The test of the first [if]: the fields that always get a line edit. *)
Definition is_free_text (entry_name section_name : str) : bool :=
  bool_decide (section_name = str_of "Hotkeys")
  || bool_decide (entry_name = str_of "uTintMaskResolution")
  || bool_decide (section_name = str_of "Log").

(** [value.lower() in ('true', 'false')] *)
Definition is_boolean_text (lib : Library) (value : str) : bool :=
  bool_decide (py_lower lib value = str_of "true")
  || bool_decide (py_lower lib value = str_of "false").

(** [create_widget_for_value]; [None] when a call into the library raises. *)
Definition create_widget_for_value (lib : Library)
  (value entry_name section_name : str) : option Widget :=
  if is_free_text entry_name section_name then Some (QLineEdit value)
  else if bool_decide (entry_name = str_of "nCharset") then
    n ← py_int lib value;
    data ← combo_box lib charsets n;
    Some (QComboBox data)
  else if bool_decide (entry_name = str_of "uUIDarkThemeId") then
    n ← py_int lib value;
    data ← combo_box lib themes n;
    Some (QComboBox data)
  else if is_boolean_text lib value then
    Some (QCheckBox (bool_decide (py_lower lib value = str_of "true")))
  else if py_isdigit lib value then
    n ← py_int lib value;
    shown ← spin_box lib n;
    Some (QSpinBox shown)
  else Some (QLineEdit value).

(** The loop of [create_section_widget], as far as [self.widgets] goes. *)
Fixpoint create_section_widget (lib : Library) (section_name : str)
  (entries : list ConfigEntry.t) (widgets : gmap (str * str) Widget)
  : option (gmap (str * str) Widget) :=
  match entries with
  | [] => Some widgets
  | entry :: rest =>
      widget ← create_widget_for_value lib (ConfigEntry.value entry)
                 (ConfigEntry.name entry) section_name;
      create_section_widget lib section_name rest
        (<[(section_name, ConfigEntry.name entry) := widget]> widgets)
  end.

(** The loop of [refresh_ui]. *)
Fixpoint refresh_sections (lib : Library) (sections : list ConfigSection.t)
  (widgets : gmap (str * str) Widget) : option (gmap (str * str) Widget) :=
  match sections with
  | [] => Some widgets
  | section :: rest =>
      widgets' ← create_section_widget lib (ConfigSection.name section)
                   (ConfigSection.entries section) widgets;
      refresh_sections lib rest widgets'
  end.

(** [refresh_ui]: [self.widgets.clear()], then the loop. *)
Definition refresh_ui (lib : Library) (sections : list ConfigSection.t)
  : option (gmap (str * str) Widget) :=
  refresh_sections lib sections ∅.

(** [load_ini] once a file was chosen and its name accepted: the sections,
    the original lines and the widgets of the editor. *)
Definition load_ini (lib : Library) (lines : list str)
  : option (list ConfigSection.t * list str * gmap (str * str) Widget) :=
  let '(sections, original_lines) := parse_ini_with_comments lines in
  widgets ← refresh_ui lib sections;
  Some (sections, original_lines, widgets).

(** The two loops of [refresh_ui] as one loop over [jobs]. *)
Fixpoint bind_jobs (lib : Library) (js : list (str * ConfigEntry.t))
  (widgets : gmap (str * str) Widget) : option (gmap (str * str) Widget) :=
  match js with
  | [] => Some widgets
  | job :: rest =>
      widget ← create_widget_for_value lib (ConfigEntry.value job.2)
                 (ConfigEntry.name job.2) job.1;
      bind_jobs lib rest (<[key_of job := widget]> widgets)
  end.

(** A widget can be built for every entry. *)
Definition creatable (lib : Library) (doc : list ConfigSection.t) : bool :=
  forallb (fun job =>
             bool_decide (is_Some (create_widget_for_value lib
                                     (ConfigEntry.value job.2)
                                     (ConfigEntry.name job.2) job.1)))
    (jobs doc).

(** A library for the examples: it treats the ASCII texts and the small
    numbers used there as CPython and Qt do. *)
Definition ascii_lower (c : char) : char :=
  if ((65 <=? c) && (c <=? 90))%N then (c + 32)%N else c.

Definition ascii_digit (c : char) : bool := ((48 <=? c) && (c <=? 57))%N.

Definition ascii_int (s : str) : option Z :=
  if negb (is_empty s) && forallb ascii_digit s
  then Some (fold_left (fun n c => (10 * n + Z.of_N (c - 48))%Z) s 0%Z)
  else None.

Definition example_library : Library :=
  {| py_int := ascii_int;
     py_lower := map ascii_lower;
     py_isdigit := fun s => negb (is_empty s) && forallb ascii_digit s;
     spin_box := fun n => Some (Z.max 0 (Z.min n 999999));
     combo_box := fun items n =>
       Some (if bool_decide (n ∈ map snd items) then Some n else None) |}.

(** ** Vocabulary of the further properties *)

(** The name a header line gives its section: [line[1:-1]]. *)
Definition header_name (raw : str) : str := slice_1_to_last (strip raw).

(** Name, tooltip and line number of each section, in stored order. *)
Definition section_heads (doc : list ConfigSection.t) : list (str * str * Z) :=
  map (fun s => (ConfigSection.name s, ConfigSection.tooltip s,
                 ConfigSection.line_number s)) doc.

(** The header lines of [rest], whose first line has index [i], with the
    comment block above each. *)
Fixpoint header_lines (lines : list str) (i : nat) (rest : list str)
  : list (str * str * Z) :=
  match rest with
  | [] => []
  | raw :: rest' =>
      if is_header raw
      then (header_name raw, parse_comments lines i, Z.of_nat i)
             :: header_lines lines (S i) rest'
      else header_lines lines (S i) rest'
  end.

(** The two tests of the comment scan, and the text it collects. *)
Definition is_comment_line (raw : str) : bool := startswith SEMI (strip raw).

Definition comment_text (raw : str) : str := strip (slice_from_1 (strip raw)).

(** What the parser guarantees of the fields of an entry. *)
Definition parsed_fields (e : ConfigEntry.t) : Prop :=
  contains EQUALS (ConfigEntry.name e) = false
  /\ strip (ConfigEntry.name e) = ConfigEntry.name e
  /\ contains SEMI (ConfigEntry.value e) = false
  /\ strip (ConfigEntry.value e) = ConfigEntry.value e
  /\ strip (ConfigEntry.inline_comment e) = ConfigEntry.inline_comment e.

(** * Properties *)

(** ** Strings *)

Section Strings.

Implicit Types (s x y : str) (c sep : char).

Lemma lstrip_app_nonspace x c y :
  isspace c = false -> lstrip (x ++ c :: y) = lstrip x ++ c :: y.
Proof.
  intros Hc. induction x as [|a x IH]; simpl.
  - by rewrite Hc.
  - destruct (isspace a); [exact IH | reflexivity].
Qed.

Lemma lstrip_snoc x c :
  lstrip (x ++ [c]) =
    match lstrip x with
    | [] => if isspace c then [] else [c]
    | _ => lstrip x ++ [c]
    end.
Proof.
  induction x as [|a x IH]; simpl; [reflexivity|].
  destruct (isspace a); [exact IH | reflexivity].
Qed.

Lemma rstrip_cons c s :
  rstrip (c :: s) =
    match rstrip s with
    | [] => if isspace c then [] else [c]
    | _ => c :: rstrip s
    end.
Proof.
  unfold rstrip. simpl. rewrite lstrip_snoc.
  destruct (lstrip (rev s)) as [|a l] eqn:E; simpl.
  - by destruct (isspace c).
  - rewrite rev_app_distr. simpl.
    destruct (rev l ++ [a]) eqn:E'; [by destruct (rev l) | reflexivity].
Qed.

Lemma rstrip_cons_nonspace c s :
  isspace c = false -> rstrip (c :: s) = c :: rstrip s.
Proof.
  intros Hc. rewrite rstrip_cons, Hc. by destruct (rstrip s).
Qed.

Lemma rstrip_app_nonspace x c y :
  isspace c = false -> rstrip (x ++ c :: y) = x ++ c :: rstrip y.
Proof.
  intros Hc. induction x as [|a x IH]; simpl.
  - by apply rstrip_cons_nonspace.
  - rewrite rstrip_cons, IH. by destruct x.
Qed.

Lemma lstrip_head s :
  match lstrip s with
  | [] => True
  | c :: _ => isspace c = false
  end.
Proof.
  induction s as [|a s IH]; simpl; [done|].
  by destruct (isspace a) eqn:E.
Qed.

Lemma lstrip_fixed s :
  match s with [] => True | c :: _ => isspace c = false end ->
  lstrip s = s.
Proof. destruct s as [|c s]; simpl; [done|]. by intros ->. Qed.

Lemma lstrip_idem s : lstrip (lstrip s) = lstrip s.
Proof. apply lstrip_fixed, lstrip_head. Qed.

Lemma rstrip_idem s : rstrip (rstrip s) = rstrip s.
Proof. unfold rstrip. by rewrite rev_involutive, lstrip_idem. Qed.

Lemma lstrip_rstrip s : lstrip (rstrip s) = rstrip (lstrip s).
Proof.
  induction s as [|c s IH]; [reflexivity|].
  simpl lstrip at 2. destruct (isspace c) eqn:Hc.
  - rewrite rstrip_cons, Hc, <- IH.
    destruct (rstrip s) eqn:E; [reflexivity|]. simpl. by rewrite Hc.
  - rewrite rstrip_cons_nonspace by done. simpl. by rewrite Hc.
Qed.

Lemma lstrip_strip s : lstrip (strip s) = strip s.
Proof. unfold strip. by rewrite lstrip_rstrip, lstrip_idem. Qed.

Lemma rstrip_strip s : rstrip (strip s) = strip s.
Proof. unfold strip. by rewrite rstrip_idem. Qed.

Lemma strip_idem s : strip (strip s) = strip s.
Proof. unfold strip at 1. by rewrite lstrip_strip, rstrip_strip. Qed.

Lemma strip_lstrip s : strip (lstrip s) = strip s.
Proof. unfold strip. by rewrite lstrip_idem. Qed.

Lemma strip_rstrip s : strip (rstrip s) = strip s.
Proof. unfold strip. by rewrite lstrip_rstrip, rstrip_idem. Qed.

(** Stripping around a character that is not white space. *)
Lemma strip_around x c y :
  isspace c = false -> strip (x ++ c :: y) = lstrip x ++ c :: rstrip y.
Proof.
  intros Hc. unfold strip.
  by rewrite lstrip_app_nonspace, rstrip_app_nonspace.
Qed.

Lemma contains_app c x y : contains c (x ++ y) = contains c x || contains c y.
Proof. apply existsb_app. Qed.

Lemma contains_rev c s : contains c (rev s) = contains c s.
Proof.
  induction s as [|a s IH]; [reflexivity|]. simpl.
  rewrite contains_app, IH. simpl. by rewrite orb_false_r, orb_comm.
Qed.

Lemma contains_lstrip c s : isspace c = false -> contains c (lstrip s) = contains c s.
Proof.
  intros Hc. induction s as [|a s IH]; [reflexivity|]. simpl.
  destruct (isspace a) eqn:Ha; [|reflexivity].
  rewrite IH. destruct (N.eqb_spec c a) as [->|]; [congruence | reflexivity].
Qed.

Lemma contains_rstrip c s : isspace c = false -> contains c (rstrip s) = contains c s.
Proof.
  intros Hc. unfold rstrip.
  by rewrite contains_rev, contains_lstrip, contains_rev.
Qed.

Lemma contains_strip c s : isspace c = false -> contains c (strip s) = contains c s.
Proof.
  intros Hc. unfold strip. by rewrite contains_rstrip, contains_lstrip.
Qed.

(** [split_1] cuts at the first separator. *)
Lemma split_1_first sep x y :
  contains sep x = false -> split_1 sep (x ++ sep :: y) = [x; y].
Proof.
  induction x as [|a x IH]; simpl.
  - by rewrite N.eqb_refl.
  - intros [Ha Hx]%orb_false_elim. rewrite (N.eqb_sym a sep), Ha.
    by rewrite (IH Hx).
Qed.

Lemma contains_split sep s :
  contains sep s = true ->
  exists x y, s = x ++ sep :: y /\ contains sep x = false.
Proof.
  induction s as [|a s IH]; simpl; [done|].
  destruct (N.eqb_spec sep a) as [->|Hne]; simpl.
  - intros _. by exists [], s.
  - intros (x & y & -> & Hx)%IH. exists (a :: x), y. split; [done|].
    simpl. rewrite Hx. by destruct (N.eqb_spec sep a).
Qed.

(** The tuple unpacking after ['=' in line] always gets two parts. *)
Lemma split_1_contains sep s :
  contains sep s = true ->
  exists x y, split_1 sep s = [x; y] /\ s = x ++ sep :: y
              /\ contains sep x = false.
Proof.
  intros (x & y & -> & Hx)%contains_split. exists x, y.
  by rewrite split_1_first.
Qed.

End Strings.

(** ** The parser, one line at a time *)

Section ParseLine.

Implicit Types (doc : list ConfigSection.t) (e : ConfigEntry.t)
  (sec : ConfigSection.t) (raw : str) (lines : list str).

Lemma append_entry_snoc e doc sec :
  append_entry e (doc ++ [sec]) = doc ++ [add_entry e sec].
Proof.
  induction doc as [|s doc IH]; [reflexivity|].
  simpl. rewrite IH. by destruct doc.
Qed.

Lemma current_section_active doc :
  bool_decide (is_Some (current_section doc)) = true <-> doc <> [].
Proof.
  rewrite bool_decide_eq_true. unfold current_section.
  destruct doc as [|s doc] using rev_ind.
  - split; [by intros [? ?] | done].
  - rewrite last_snoc. split; [by destruct doc | by eexists].
Qed.

Lemma traversal_app doc doc' : traversal (doc ++ doc') = traversal doc ++ traversal doc'.
Proof. apply flat_map_app. Qed.

Lemma all_entries_app doc doc' :
  all_entries (doc ++ doc') = all_entries doc ++ all_entries doc'.
Proof. apply flat_map_app. Qed.

Lemma jobs_app doc doc' : jobs (doc ++ doc') = jobs doc ++ jobs doc'.
Proof. apply flat_map_app. Qed.

Lemma traversal_append_entry e doc :
  doc <> [] ->
  traversal (append_entry e doc) = traversal doc ++ [ConfigEntry.line_number e].
Proof.
  destruct doc as [|s doc _] using rev_ind; [done|]. intros _.
  rewrite append_entry_snoc, !traversal_app. simpl.
  rewrite !app_nil_r, map_app. simpl. by rewrite <- app_assoc.
Qed.

Lemma all_entries_append_entry e doc :
  doc <> [] -> all_entries (append_entry e doc) = all_entries doc ++ [e].
Proof.
  destruct doc as [|s doc _] using rev_ind; [done|]. intros _.
  rewrite append_entry_snoc, !all_entries_app. simpl.
  by rewrite !app_nil_r, <- app_assoc.
Qed.

Lemma headers_append_entry e doc : headers (append_entry e doc) = headers doc.
Proof.
  destruct doc as [|s doc _] using rev_ind; [done|].
  rewrite append_entry_snoc. unfold headers. by rewrite !map_app.
Qed.

Lemma is_header_not_skipped raw : is_header raw = true -> is_skipped raw = false.
Proof.
  unfold is_header, is_skipped. destruct (strip raw) as [|c l]; [done|].
  simpl. intros [Hc _]%andb_prop. apply N.eqb_eq in Hc. by subst c.
Qed.

(** What one iteration does to [sections]: a header line appends a section,
    an assignment under an active section appends an entry to the last
    section, every other line leaves the model alone. *)
Lemma parse_line_cases lines doc i raw :
  (is_header raw = true /\
   parse_line lines doc i raw =
     doc ++ [ConfigSection.mk (slice_1_to_last (strip raw))
               (parse_comments lines i) (Z.of_nat i) []])
  \/ (is_assignment raw = true /\ doc <> [] /\
      exists k v, strip raw = k ++ EQUALS :: v /\ contains EQUALS k = false /\
        parse_line lines doc i raw = append_entry (make_entry lines i k v) doc)
  \/ (is_header raw = false /\ (is_assignment raw = false \/ doc = []) /\
      parse_line lines doc i raw = doc).
Proof.
  unfold parse_line, is_assignment.
  destruct (is_header raw) eqn:Hh.
  - left. split; [done|]. pose proof (is_header_not_skipped _ Hh) as Hs.
    unfold is_skipped in Hs. rewrite Hs. unfold is_header in Hh. by rewrite Hh.
  - right. unfold is_header in Hh. fold (is_skipped raw).
    destruct (is_skipped raw) eqn:Hs; simpl.
    { right. by auto. }
    rewrite Hh.
    destruct (contains EQUALS (strip raw)) eqn:He; simpl; [|right; by auto].
    destruct (bool_decide (is_Some (current_section doc))) eqn:Hc.
    + left. apply current_section_active in Hc.
      destruct (split_1_contains _ _ He) as (k & v & Hsp & Heq & Hk).
      split; [done|]. split; [done|]. exists k, v. by rewrite Hsp.
    + right. split; [done|]. split; [|done]. right.
      destruct doc as [|s doc]; [done|]. exfalso.
      assert (bool_decide (is_Some (current_section (s :: doc))) = true) as H
        by by apply current_section_active.
      congruence.
Qed.

(** The line numbers a step records: none, or the index of the line, at the
    end of the traversal. *)
Lemma parse_line_traversal lines doc i raw :
  traversal (parse_line lines doc i raw) = traversal doc
  \/ traversal (parse_line lines doc i raw) = traversal doc ++ [Z.of_nat i].
Proof.
  destruct (parse_line_cases lines doc i raw)
    as [[_ ->]|[(_ & Hne & k & v & _ & _ & ->)|(_ & _ & ->)]].
  - right. by rewrite traversal_app.
  - right. rewrite traversal_append_entry by done.
    do 2 f_equal. unfold make_entry.
    destruct (contains SEMI (strip v)); [|done].
    by destruct (split_1 SEMI (strip v)) as [|? [|? [|? ?]]].
  - by left.
Qed.

End ParseLine.

(** ** The parser, over the whole file *)

Section ParseLoop.

Implicit Types (doc : list ConfigSection.t) (e : ConfigEntry.t)
  (sec : ConfigSection.t) (raw : str) (lines rest : list str).

Lemma parse_loop_app lines i rest rest' doc :
  parse_loop lines i (rest ++ rest') doc =
    parse_loop lines (i + length rest) rest' (parse_loop lines i rest doc).
Proof.
  revert i doc. induction rest as [|raw rest IH]; intros i doc; simpl.
  - by rewrite Nat.add_0_r.
  - rewrite IH. f_equal. lia.
Qed.

(** The loop, cut at line [i]. *)
Lemma parse_loop_at lines i raw :
  lines !! i = Some raw ->
  parse_loop lines 0 lines [] =
    parse_loop lines (S i) (drop (S i) lines)
      (parse_line lines (parse_loop lines 0 (take i lines) []) i raw).
Proof.
  intros Hi. rewrite <- (take_drop_middle lines i raw Hi) at 2.
  rewrite parse_loop_app. simpl.
  pose proof (lookup_lt_Some _ _ _ Hi).
  rewrite length_take_le by lia. reflexivity.
Qed.

Lemma StronglySorted_snoc (l : list Z) (x : Z) :
  StronglySorted Z.lt l -> Forall (fun y => (y < x)%Z) l ->
  StronglySorted Z.lt (l ++ [x]).
Proof.
  induction 1 as [|a l Hl IH Ha]; intros Hx; simpl.
  - repeat constructor.
  - inversion_clear Hx as [|? ? Hax Hlx]. constructor; [by apply IH|].
    apply Forall_app. split; [done | by constructor].
Qed.

Lemma scanned_step lines doc i raw :
  scanned i doc -> scanned (S i) (parse_line lines doc i raw).
Proof.
  intros [Hs Hb]. unfold scanned.
  assert (Forall (fun z => (0 <= z < Z.of_nat (S i))%Z) (traversal doc)) as Hb'.
  { eapply Forall_impl; [exact Hb|]. simpl. intros. lia. }
  destruct (parse_line_traversal lines doc i raw) as [->| ->]; [done|].
  split.
  - apply StronglySorted_snoc; [done|].
    eapply Forall_impl; [exact Hb|]. simpl. intros. lia.
  - apply Forall_app. split; [done|]. constructor; [lia | constructor].
Qed.

Lemma scanned_loop lines i rest doc :
  scanned i doc -> scanned (i + length rest) (parse_loop lines i rest doc).
Proof.
  revert i doc. induction rest as [|raw rest IH]; intros i doc H; simpl.
  - by rewrite Nat.add_0_r.
  - replace (i + S (length rest)) with (S i + length rest) by lia.
    by apply IH, scanned_step.
Qed.

Lemma scanned_prefix lines n :
  scanned (length (take n lines)) (parse_loop lines 0 (take n lines) []).
Proof.
  apply (scanned_loop lines 0 (take n lines) []).
  split; simpl; constructor.
Qed.

Lemma scanned_parse lines : scanned (length lines) (parse_loop lines 0 lines []).
Proof.
  apply (scanned_loop lines 0 lines []). split; simpl; constructor.
Qed.

Lemma in_traversal_section doc sec :
  In sec doc -> In (ConfigSection.line_number sec) (traversal doc).
Proof.
  intros H. apply in_flat_map. exists sec. split; [done | by left].
Qed.

Lemma in_traversal_entry doc sec e :
  In sec doc -> In e (ConfigSection.entries sec) ->
  In (ConfigEntry.line_number e) (traversal doc).
Proof.
  intros H He. apply in_flat_map. exists sec. split; [done|].
  right. by apply in_map.
Qed.

Lemma in_all_entries doc e :
  In e (all_entries doc) <->
  exists sec, In sec doc /\ In e (ConfigSection.entries sec).
Proof. apply in_flat_map. Qed.

(** What the rest of the scan adds to a model: sections and entries with
    line numbers from [i] on, after those already there. *)
Lemma parse_line_grows lines doc i raw :
  exists hs es,
    headers (parse_line lines doc i raw) = headers doc ++ hs
    /\ all_entries (parse_line lines doc i raw) = all_entries doc ++ es
    /\ Forall (fun h => h.2 = Z.of_nat i) hs
    /\ Forall (fun e => ConfigEntry.line_number e = Z.of_nat i) es.
Proof.
  destruct (parse_line_cases lines doc i raw)
    as [[_ ->]|[(_ & Hne & k & v & _ & _ & ->)|(_ & _ & ->)]].
  - eexists [_], []. unfold headers. rewrite map_app, all_entries_app. simpl.
    split; [done|]. split; [done|]. split; by repeat constructor.
  - eexists [], [_]. rewrite headers_append_entry, all_entries_append_entry by done.
    rewrite app_nil_r. split; [done|]. split; [done|]. split; [constructor|].
    constructor; [|constructor]. unfold make_entry.
    destruct (contains SEMI (strip v)); [|done].
    by destruct (split_1 SEMI (strip v)) as [|? [|? [|? ?]]].
  - exists [], []. by rewrite !app_nil_r.
Qed.

Lemma parse_loop_grows lines i rest doc :
  exists hs es,
    headers (parse_loop lines i rest doc) = headers doc ++ hs
    /\ all_entries (parse_loop lines i rest doc) = all_entries doc ++ es
    /\ Forall (fun h => (Z.of_nat i <= h.2)%Z) hs
    /\ Forall (fun e => (Z.of_nat i <= ConfigEntry.line_number e)%Z) es.
Proof.
  revert i doc. induction rest as [|raw rest IH]; intros i doc; simpl.
  - exists [], []. by rewrite !app_nil_r.
  - destruct (IH (S i) (parse_line lines doc i raw)) as (hs & es & -> & -> & Hh & He).
    destruct (parse_line_grows lines doc i raw) as (hs0 & es0 & -> & -> & Hh0 & He0).
    exists (hs0 ++ hs), (es0 ++ es). rewrite !app_assoc.
    split; [done|]. split; [done|]. split; apply Forall_app; split.
    + eapply Forall_impl; [exact Hh0|]. simpl. intros ? ->. lia.
    + eapply Forall_impl; [exact Hh|]. simpl. intros. lia.
    + eapply Forall_impl; [exact He0|]. simpl. intros ? ->. lia.
    + eapply Forall_impl; [exact He|]. simpl. intros. lia.
Qed.

(** A section is active after a prefix exactly when the prefix has a
    header line. *)
Lemma parse_loop_active lines i rest doc :
  parse_loop lines i rest doc = [] <->
  doc = [] /\ existsb is_header rest = false.
Proof.
  revert i doc. induction rest as [|raw rest IH]; intros i doc; simpl.
  - tauto.
  - rewrite IH, orb_false_iff.
    destruct (parse_line_cases lines doc i raw)
      as [[Hh ->]|[(Ha & Hne & k & v & _ & _ & ->)|(Hh & _ & ->)]].
    + split.
      * intros [Hd _]. by apply app_eq_nil in Hd as [_ ?].
      * intros (_ & ? & _). congruence.
    + split.
      * intros [Hd _]. exfalso. apply (f_equal headers) in Hd.
        rewrite headers_append_entry in Hd. by destruct doc.
      * intros [? _]. done.
    + rewrite Hh. tauto.
Qed.

End ParseLoop.

(** ** Line numbers of a parsed document *)

Section LineNumbers.

Implicit Types (doc : list ConfigSection.t) (e : ConfigEntry.t)
  (sec : ConfigSection.t).

Lemma traversal_middle before sec after :
  traversal (before ++ sec :: after) =
    traversal before
    ++ (ConfigSection.line_number sec
        :: map ConfigEntry.line_number (ConfigSection.entries sec))
    ++ traversal after.
Proof. by rewrite traversal_app. Qed.

Lemma sorted_section_before_entries doc sec e :
  StronglySorted Z.lt (traversal doc) ->
  In sec doc -> In e (ConfigSection.entries sec) ->
  (ConfigSection.line_number sec < ConfigEntry.line_number e)%Z.
Proof.
  intros Hs (before & after & ->)%in_split He.
  rewrite traversal_middle in Hs.
  apply StronglySorted_app_1_r, StronglySorted_app_1_l in Hs.
  apply StronglySorted_cons in Hs as [Hall _].
  rewrite Forall_forall in Hall. apply Hall, list_elem_of_In. by apply in_map.
Qed.

Lemma sorted_entries doc sec :
  StronglySorted Z.lt (traversal doc) -> In sec doc ->
  StronglySorted Z.lt (map ConfigEntry.line_number (ConfigSection.entries sec)).
Proof.
  intros Hs (before & after & ->)%in_split.
  rewrite traversal_middle in Hs.
  apply StronglySorted_app_1_r, StronglySorted_app_1_l in Hs.
  by apply StronglySorted_cons in Hs as [_ ?].
Qed.

Lemma sorted_section_after_earlier before sec after z :
  StronglySorted Z.lt (traversal (before ++ sec :: after)) ->
  In z (traversal before) -> (z < ConfigSection.line_number sec)%Z.
Proof.
  intros Hs Hz. rewrite traversal_middle in Hs.
  eapply StronglySorted_app_1_elem_of; [exact Hs | by apply list_elem_of_In |].
  simpl. left.
Qed.

End LineNumbers.

(** C10. Source-line monotonicity: in a parsed document the recorded line
    numbers are strictly increasing in traversal order.  Each entry's line
    number is greater than its section's, the entries of a section have
    strictly increasing line numbers in stored order, a section's line number
    is greater than every line number of the sections before it and of their
    entries, and every recorded line number is a valid index into the
    returned raw lines. *)
Theorem C10_source_lines_increasing (lines : list str) :
  let doc := (parse_ini_with_comments lines).1 in
  let raw_lines := (parse_ini_with_comments lines).2 in
  StronglySorted Z.lt (traversal doc)
  /\ (forall sec e, In sec doc -> In e (ConfigSection.entries sec) ->
       (ConfigSection.line_number sec < ConfigEntry.line_number e)%Z)
  /\ (forall sec, In sec doc ->
       StronglySorted Z.lt
         (map ConfigEntry.line_number (ConfigSection.entries sec)))
  /\ (forall before sec after, doc = before ++ sec :: after ->
       forall earlier, In earlier before ->
         (ConfigSection.line_number earlier < ConfigSection.line_number sec)%Z
         /\ forall e, In e (ConfigSection.entries earlier) ->
              (ConfigEntry.line_number e < ConfigSection.line_number sec)%Z)
  /\ (forall z, In z (traversal doc) ->
       (0 <= z < Z.of_nat (length raw_lines))%Z
       /\ is_Some (raw_lines !! Z.to_nat z)).
Proof.
  simpl. destruct (scanned_parse lines) as [Hs Hb].
  split; [done|]. split; [|split; [|split]].
  - intros sec e. by apply sorted_section_before_entries.
  - intros sec. by apply sorted_entries.
  - intros before sec after Hdoc earlier Hin. rewrite Hdoc in Hs. split.
    + eapply sorted_section_after_earlier; [exact Hs|].
      by apply in_traversal_section.
    + intros e He. eapply sorted_section_after_earlier; [exact Hs|].
      by eapply in_traversal_entry.
  - intros z Hz. rewrite Forall_forall in Hb.
    apply list_elem_of_In, Hb in Hz. split; [done|].
    apply lookup_lt_is_Some. lia.
Qed.

(** ** What a given line contributes to the parsed document *)

Section LineContribution.

Implicit Types (doc : list ConfigSection.t) (e : ConfigEntry.t)
  (sec : ConfigSection.t) (raw : str) (lines : list str).

Lemma in_headers doc name z :
  In (name, z) (headers doc) <->
  exists sec, In sec doc /\ ConfigSection.name sec = name
              /\ ConfigSection.line_number sec = z.
Proof.
  unfold headers. rewrite in_map_iff. split.
  - intros (sec & [= <- <-] & Hin). by exists sec.
  - intros (sec & Hin & <- & <-). by exists sec.
Qed.

Lemma make_entry_line_number lines i k v :
  ConfigEntry.line_number (make_entry lines i k v) = Z.of_nat i.
Proof.
  unfold make_entry. destruct (contains SEMI (strip v)); [|done].
  by destruct (split_1 SEMI (strip v)) as [|? [|? [|? ?]]].
Qed.

(** The final document around line [i]: what the prefix recorded lies
    below [i], what the rest of the scan records lies above. *)
Lemma parse_around lines i raw :
  lines !! i = Some raw ->
  let before := parse_loop lines 0 (take i lines) [] in
  let doc := parse_loop lines 0 lines [] in
  exists hs es,
    headers doc = headers (parse_line lines before i raw) ++ hs
    /\ all_entries doc = all_entries (parse_line lines before i raw) ++ es
    /\ Forall (fun h => (Z.of_nat i < h.2)%Z) hs
    /\ Forall (fun e => (Z.of_nat i < ConfigEntry.line_number e)%Z) es
    /\ Forall (fun h => (h.2 < Z.of_nat i)%Z) (headers before)
    /\ Forall (fun e => (ConfigEntry.line_number e < Z.of_nat i)%Z)
         (all_entries before).
Proof.
  intros Hi before doc. subst doc. rewrite (parse_loop_at lines i raw Hi).
  fold before.
  destruct (parse_loop_grows lines (S i) (drop (S i) lines)
              (parse_line lines before i raw)) as (hs & es & Hh & He & Fh & Fe).
  exists hs, es. split; [done|]. split; [done|].
  pose proof (scanned_prefix lines i) as [_ Hb]. fold before in Hb.
  rewrite length_take_le in Hb by (apply lookup_lt_Some in Hi; lia).
  rewrite Forall_forall in Hb.
  split; [|split; [|split]].
  - eapply Forall_impl; [exact Fh|]. simpl. intros. lia.
  - eapply Forall_impl; [exact Fe|]. simpl. intros. lia.
  - apply Forall_forall. intros [name z] Hin. simpl.
    apply list_elem_of_In, in_headers in Hin as (sec & Hsec & _ & <-).
    apply in_traversal_section, list_elem_of_In, Hb in Hsec. lia.
  - apply Forall_forall. intros e Hin.
    apply list_elem_of_In, in_all_entries in Hin as (sec & Hsec & He').
    pose proof (in_traversal_entry _ _ _ Hsec He') as Hz.
    apply list_elem_of_In, Hb in Hz. lia.
Qed.

(** A header line creates the section of that line. *)
Lemma section_of_header lines i raw :
  lines !! i = Some raw -> is_header raw = true ->
  exists sec, In sec (parse_loop lines 0 lines [])
    /\ ConfigSection.name sec = slice_1_to_last (strip raw)
    /\ ConfigSection.line_number sec = Z.of_nat i.
Proof.
  intros Hi Hh.
  destruct (parse_around lines i raw Hi) as (hs & es & Hhs & _).
  apply in_headers. rewrite Hhs.
  destruct (parse_line_cases lines (parse_loop lines 0 (take i lines) []) i raw)
    as [[_ ->]|[(Ha & _)|(Hh' & _)]].
  - unfold headers at 1. rewrite map_app, !in_app_iff. left. right. by left.
  - unfold is_assignment in Ha. rewrite Hh, andb_false_r in Ha. done.
  - congruence.
Qed.

(** No other line creates a section. *)
Lemma no_section_without_header lines i raw sec :
  lines !! i = Some raw -> is_header raw = false ->
  In sec (parse_loop lines 0 lines []) ->
  ConfigSection.line_number sec <> Z.of_nat i.
Proof.
  intros Hi Hh Hsec Hln.
  destruct (parse_around lines i raw Hi) as (hs & es & Hhs & _ & Fh & _ & Fb & _).
  assert (In (ConfigSection.name sec, Z.of_nat i)
            (headers (parse_loop lines 0 lines []))) as Hin
    by (apply in_headers; by exists sec).
  rewrite Hhs in Hin.
  assert (headers (parse_line lines (parse_loop lines 0 (take i lines) []) i raw)
          = headers (parse_loop lines 0 (take i lines) [])) as Heq.
  { destruct (parse_line_cases lines (parse_loop lines 0 (take i lines) []) i raw)
      as [[? _]|[(_ & _ & k & v & _ & _ & ->)|(_ & _ & ->)]];
      [congruence | apply headers_append_entry | done]. }
  rewrite Heq, in_app_iff in Hin. rewrite Forall_forall in Fh, Fb.
  destruct Hin as [Hin|Hin]; apply list_elem_of_In in Hin.
  - apply Fb in Hin. simpl in Hin. lia.
  - apply Fh in Hin. simpl in Hin. lia.
Qed.

(** An assignment line under an active section creates the entry of that
    line, and nothing else creates an entry with that line number. *)
Lemma entry_of_assignment lines i raw k v :
  lines !! i = Some raw -> is_assignment raw = true ->
  existsb is_header (take i lines) = true ->
  strip raw = k ++ EQUALS :: v -> contains EQUALS k = false ->
  In (make_entry lines i k v) (all_entries (parse_loop lines 0 lines []))
  /\ forall e, In e (all_entries (parse_loop lines 0 lines [])) ->
       ConfigEntry.line_number e = Z.of_nat i -> e = make_entry lines i k v.
Proof.
  intros Hi Ha Hact Hk Hnk.
  destruct (parse_around lines i raw Hi) as (hs & es & _ & Hes & _ & Fe & _ & Fb).
  set (before := parse_loop lines 0 (take i lines) []) in *.
  assert (before <> []) as Hne.
  { intros Hnil. apply parse_loop_active in Hnil as [_ ?]. congruence. }
  assert (parse_line lines before i raw
          = append_entry (make_entry lines i k v) before) as Hstep.
  { destruct (parse_line_cases lines before i raw)
      as [[Hh _]|[(_ & _ & k' & v' & Hk' & Hnk' & ->)|(_ & [?|?] & _)]];
      [| |congruence|done].
    - unfold is_assignment in Ha. rewrite Hh, andb_false_r in Ha. done.
    - pose proof (split_1_first EQUALS k v Hnk) as H1.
      pose proof (split_1_first EQUALS k' v' Hnk') as H2.
      rewrite <- Hk, Hk', H2 in H1. by injection H1 as -> ->. }
  rewrite Hstep, all_entries_append_entry in Hes by done.
  rewrite Hes. split.
  - rewrite !in_app_iff. left. right. by left.
  - intros e Hin Hln. rewrite !in_app_iff in Hin.
    rewrite Forall_forall in Fe, Fb.
    destruct Hin as [[Hin|[Hin|[]]]|Hin]; [|done|].
    + apply list_elem_of_In, Fb in Hin. lia.
    + apply list_elem_of_In, Fe in Hin. lia.
Qed.

(** A line that is not an assignment, or that has no header above it,
    creates no entry. *)
Lemma no_entry_otherwise lines i raw e :
  lines !! i = Some raw ->
  is_assignment raw && existsb is_header (take i lines) = false ->
  In e (all_entries (parse_loop lines 0 lines [])) ->
  ConfigEntry.line_number e <> Z.of_nat i.
Proof.
  intros Hi Hno Hin Hln.
  destruct (parse_around lines i raw Hi) as (hs & es & _ & Hes & _ & Fe & _ & Fb).
  set (before := parse_loop lines 0 (take i lines) []) in *.
  assert (all_entries (parse_line lines before i raw) = all_entries before) as Heq.
  { destruct (parse_line_cases lines before i raw)
      as [[_ ->]|[(Ha & Hne & _)|(_ & _ & ->)]]; [| |done].
    - rewrite all_entries_app. simpl. by rewrite app_nil_r.
    - exfalso. rewrite Ha in Hno. simpl in Hno.
      destruct (parse_loop_active lines 0 (take i lines) []) as [_ Hnil].
      apply Hne, Hnil. by split. }
  rewrite Hes, Heq, in_app_iff in Hin. rewrite Forall_forall in Fe, Fb.
  destruct Hin as [Hin|Hin]; apply list_elem_of_In in Hin.
  - apply Fb in Hin. lia.
  - apply Fe in Hin. lia.
Qed.

End LineContribution.

(** ** Classification of lines *)

Section Classification.

Implicit Types (e : ConfigEntry.t) (raw k v a b : str) (lines : list str).

(** A header is an opening bracket, the name, a closing bracket. *)
Lemma header_shape raw :
  is_header raw = true ->
  strip raw = LBRACKET :: slice_1_to_last (strip raw) ++ [RBRACKET].
Proof.
  unfold is_header, endswith, slice_1_to_last.
  destruct (strip raw) as [|c r]; [done|]. simpl.
  intros [Hc Hr]%andb_prop. apply N.eqb_eq in Hc. subst c.
  destruct r as [|d r _] using rev_ind; [done|].
  rewrite rev_app_distr in Hr. simpl in Hr. apply N.eqb_eq in Hr. subst d.
  by rewrite removelast_last.
Qed.

Lemma make_entry_name lines i k v :
  ConfigEntry.name (make_entry lines i k v) = strip k.
Proof.
  unfold make_entry. destruct (contains SEMI (strip v)); [|done].
  by destruct (split_1 SEMI (strip v)) as [|? [|? [|? ?]]].
Qed.

Lemma make_entry_plain lines i k v :
  contains SEMI v = false ->
  ConfigEntry.value (make_entry lines i k v) = strip v
  /\ ConfigEntry.inline_comment (make_entry lines i k v) = [].
Proof.
  intros Hv. unfold make_entry. by rewrite contains_strip, Hv.
Qed.

Lemma make_entry_commented lines i k a b :
  contains SEMI a = false ->
  ConfigEntry.value (make_entry lines i k (a ++ SEMI :: b)) = strip a
  /\ ConfigEntry.inline_comment (make_entry lines i k (a ++ SEMI :: b)) = strip b.
Proof.
  intros Ha. unfold make_entry.
  rewrite contains_strip, contains_app by done. simpl.
  rewrite orb_true_r, strip_around by done.
  rewrite split_1_first by (by rewrite contains_lstrip).
  simpl. by rewrite strip_lstrip, strip_rstrip.
Qed.

End Classification.

(** C6. Entry-line splitting: an entry line inside an active section is split
    at its first [=] only, so the value keeps any further [=]; a value that
    contains [;] is split at its first [;] only, the trimmed text before it
    being the entry's value and the trimmed text after it the inline comment.
    The line yields exactly one entry, recorded under its own line number. *)
Theorem C6_entry_line_splitting (lines : list str) (i : nat) (raw k v : str) :
  lines !! i = Some raw ->
  existsb is_header (take i lines) = true ->
  is_skipped raw = false ->
  is_header raw = false ->
  strip raw = k ++ EQUALS :: v ->
  contains EQUALS k = false ->
  let doc := (parse_ini_with_comments lines).1 in
  exists sec e,
    In sec doc /\ In e (ConfigSection.entries sec)
    /\ ConfigEntry.line_number e = Z.of_nat i
    /\ (forall sec' e', In sec' doc -> In e' (ConfigSection.entries sec') ->
         ConfigEntry.line_number e' = Z.of_nat i -> e' = e)
    /\ ConfigEntry.name e = strip k
    /\ (contains SEMI v = false ->
        ConfigEntry.value e = strip v /\ ConfigEntry.inline_comment e = [])
    /\ (forall a b, v = a ++ SEMI :: b -> contains SEMI a = false ->
        ConfigEntry.value e = strip a /\ ConfigEntry.inline_comment e = strip b).
Proof.
  intros Hi Hact Hs Hh Hk Hnk. simpl.
  assert (is_assignment raw = true) as Ha.
  { unfold is_assignment. rewrite Hs, Hh, Hk, contains_app. simpl.
    by rewrite orb_true_r. }
  destruct (entry_of_assignment lines i raw k v Hi Ha Hact Hk Hnk) as [Hin Huniq].
  apply in_all_entries in Hin as (sec & Hsec & He).
  exists sec, (make_entry lines i k v).
  split; [done|]. split; [done|]. split; [apply make_entry_line_number|].
  split; [|split; [apply make_entry_name|split]].
  - intros sec' e' Hsec' He'. apply Huniq, in_all_entries. by exists sec'.
  - apply make_entry_plain.
  - intros a b ->. apply make_entry_commented.
Qed.

(** The line [Foo = a=b ; c ; d] under the header [[A]]. *)
Lemma C6_entry_line_splitting_witness :
  exists sec e,
    In sec (parse_ini_with_comments [line "[A]"; line "Foo = a=b ; c ; d"]).1
    /\ In e (ConfigSection.entries sec)
    /\ ConfigEntry.name e = str_of "Foo"
    /\ ConfigEntry.value e = str_of "a=b"
    /\ ConfigEntry.inline_comment e = str_of "c ; d".
Proof.
  destruct (C6_entry_line_splitting
              [line "[A]"; line "Foo = a=b ; c ; d"] 1
              (line "Foo = a=b ; c ; d") (str_of "Foo ") (str_of " a=b ; c ; d"))
    as (sec & e & Hsec & He & _ & _ & Hname & _ & Hsplit);
    [reflexivity | reflexivity | reflexivity | reflexivity | reflexivity
    | reflexivity |].
  destruct (Hsplit (str_of " a=b ") (str_of " c ; d")) as [Hv Hc];
    [reflexivity | reflexivity |].
  exists sec, e. repeat split; assumption.
Defined.

(** C7. Orphan tolerance: the parser is a total function of the lines, and
    when none of the first [n] lines is a section header no section is active
    after them and no entry of the parsed document refers to any of them,
    whatever [key=value] lines they hold. *)
Theorem C7_orphan_tolerance (lines : list str) (n : nat) :
  existsb is_header (take n lines) = false ->
  parse_loop lines 0 (take n lines) [] = []
  /\ forall sec e,
       In sec (parse_ini_with_comments lines).1 ->
       In e (ConfigSection.entries sec) ->
       (Z.of_nat n <= ConfigEntry.line_number e)%Z.
Proof.
  intros Hno. simpl.
  assert (parse_loop lines 0 (take n lines) [] = []) as Hnil
    by by apply parse_loop_active.
  split; [done|]. intros sec e Hsec He.
  assert (In e (all_entries (parse_loop lines 0 lines []))) as Hin
    by (apply in_all_entries; by exists sec).
  rewrite <- (take_drop n lines) in Hin at 2.
  rewrite parse_loop_app, Hnil in Hin.
  destruct (parse_loop_grows lines (0 + length (take n lines)) (drop n lines) [])
    as (hs & es & _ & Hes & _ & Fe).
  rewrite Hes in Hin. simpl in Hin.
  rewrite Forall_forall in Fe. pose proof (Fe e) as Hle.
  destruct (decide (n <= length lines)) as [Hn|Hn].
  - rewrite length_take_le in Hle by done. apply Hle. by apply list_elem_of_In.
  - rewrite drop_ge in Hes by lia. simpl in Hes.
    destruct es; [done | discriminate Hes].
Qed.

(** Two orphan assignments, then a section with one entry. *)
Lemma C7_orphan_tolerance_witness :
  parse_loop [line "k=v"; line "a = b ; c"; line "[A]"; line "x=y"] 0
    (take 2 [line "k=v"; line "a = b ; c"; line "[A]"; line "x=y"]) [] = []
  /\ forall sec e,
       In sec (parse_ini_with_comments
                 [line "k=v"; line "a = b ; c"; line "[A]"; line "x=y"]).1 ->
       In e (ConfigSection.entries sec) ->
       (2 <= ConfigEntry.line_number e)%Z.
Proof.
  apply (C7_orphan_tolerance
           [line "k=v"; line "a = b ; c"; line "[A]"; line "x=y"] 2).
  reflexivity.
Defined.

(** C9. Header precedence: a line whose trimmed content starts with [[] and
    ends with []] is a header even when it contains [=].  Whatever the model
    holds, active section or not, the step appends a section named by the
    text between the brackets and adds no entry; the parsed document has a
    section for the line and no entry with its line number. *)
Theorem C9_header_precedence (lines : list str) (i : nat) (raw : str) :
  lines !! i = Some raw ->
  is_header raw = true ->
  let name := slice_1_to_last (strip raw) in
  let doc := (parse_ini_with_comments lines).1 in
  strip raw = LBRACKET :: name ++ [RBRACKET]
  /\ (forall sections,
       parse_line lines sections i raw =
         sections ++ [ConfigSection.mk name (parse_comments lines i) (Z.of_nat i) []])
  /\ (exists sec, In sec doc /\ ConfigSection.name sec = name
                  /\ ConfigSection.line_number sec = Z.of_nat i)
  /\ (forall sec e, In sec doc -> In e (ConfigSection.entries sec) ->
       ConfigEntry.line_number e <> Z.of_nat i).
Proof.
  intros Hi Hh. simpl. split; [by apply header_shape|]. split; [|split].
  - intros sections.
    destruct (parse_line_cases lines sections i raw)
      as [[_ ->]|[(Ha & _)|(Hh' & _)]]; [done| |congruence].
    unfold is_assignment in Ha. rewrite Hh, andb_false_r in Ha. done.
  - by apply section_of_header.
  - intros sec e Hsec He. apply (no_entry_otherwise lines i raw); [done| |].
    + unfold is_assignment. by rewrite Hh, andb_false_r.
    + apply in_all_entries. by exists sec.
Qed.

(** The header [[a=b]] under the active section [[A]]. *)
Lemma C9_header_precedence_witness :
  exists sec,
    In sec (parse_ini_with_comments [line "[A]"; line "[a=b]"; line "k=v"]).1
    /\ ConfigSection.name sec = str_of "a=b"
    /\ ConfigSection.line_number sec = 1%Z.
Proof.
  destruct (C9_header_precedence
              [line "[A]"; line "[a=b]"; line "k=v"] 1 (line "[a=b]"))
    as (_ & _ & Hsec & _); [reflexivity | reflexivity |].
  exact Hsec.
Defined.

(** C5 does not hold as stated: under the active section [[A]] the
    unterminated header [[Sec=tion] becomes the entry [[Sec] = [tion]. *)
Lemma C5_unterminated_header_counterexample :
  (parse_ini_with_comments [line "[A]"; line "[Sec=tion"]).1 =
    [ConfigSection.mk (str_of "A") [] 0
       [ConfigEntry.mk (str_of "[Sec") (str_of "tion") [] 1 []]].
Proof. reflexivity. Qed.

(** C5 (amended). Unterminated header: a line whose trimmed content starts
    with [[] but does not end with []] is not a header and never creates a
    section.  It is treated like any other line that is not a header: it is
    ignored unless it contains [=] while a section is active, and then it
    becomes an entry of that section whose key is the trimmed text before the
    first [=]. *)
Theorem C5_unterminated_header (lines : list str) (i : nat) (raw : str) :
  lines !! i = Some raw ->
  startswith LBRACKET (strip raw) = true ->
  endswith RBRACKET (strip raw) = false ->
  let doc := (parse_ini_with_comments lines).1 in
  is_header raw = false
  /\ (forall sec, In sec doc -> ConfigSection.line_number sec <> Z.of_nat i)
  /\ (contains EQUALS (strip raw) && existsb is_header (take i lines) = false ->
      forall sec e, In sec doc -> In e (ConfigSection.entries sec) ->
        ConfigEntry.line_number e <> Z.of_nat i)
  /\ (contains EQUALS (strip raw) = true ->
      existsb is_header (take i lines) = true ->
      exists sec e k v,
        In sec doc /\ In e (ConfigSection.entries sec)
        /\ ConfigEntry.line_number e = Z.of_nat i
        /\ strip raw = k ++ EQUALS :: v /\ contains EQUALS k = false
        /\ ConfigEntry.name e = strip k).
Proof.
  intros Hi Hopen Hclose. simpl.
  assert (is_header raw = false) as Hh
    by (unfold is_header; by rewrite Hopen, Hclose).
  assert (is_skipped raw = false) as Hs.
  { unfold is_skipped. destruct (strip raw) as [|c r]; [done|]. simpl in *.
    apply N.eqb_eq in Hopen. by subst c. }
  assert (is_assignment raw = contains EQUALS (strip raw)) as Ha
    by (unfold is_assignment; by rewrite Hs, Hh).
  split; [done|]. split; [|split].
  - intros sec. by apply (no_section_without_header lines i raw).
  - intros Hno sec e Hsec He. apply (no_entry_otherwise lines i raw); [done| |].
    + by rewrite Ha.
    + apply in_all_entries. by exists sec.
  - intros Heq Hact.
    destruct (contains_split _ _ Heq) as (k & v & Hk & Hnk).
    rewrite Heq in Ha.
    destruct (entry_of_assignment lines i raw k v Hi Ha Hact Hk Hnk) as [Hin _].
    apply in_all_entries in Hin as (sec & Hsec & He).
    exists sec, (make_entry lines i k v), k, v.
    repeat split; try done.
    + apply make_entry_line_number.
    + apply make_entry_name.
Qed.

(** [[Sec=tion] under the active section [[A]] becomes an entry. *)
Lemma C5_unterminated_header_witness :
  is_header (line "[Sec=tion") = false
  /\ exists sec e k v,
       In sec (parse_ini_with_comments [line "[A]"; line "[Sec=tion"]).1
       /\ In e (ConfigSection.entries sec)
       /\ ConfigEntry.line_number e = 1%Z
       /\ strip (line "[Sec=tion") = k ++ EQUALS :: v
       /\ contains EQUALS k = false
       /\ ConfigEntry.name e = strip k.
Proof.
  destruct (C5_unterminated_header
              [line "[A]"; line "[Sec=tion"] 1 (line "[Sec=tion"))
    as (Hh & _ & _ & Hentry); [reflexivity | reflexivity | reflexivity |].
  split; [exact Hh|]. apply Hentry; reflexivity.
Defined.

(** ** The leading-comment scan *)

Section ParseComments.

Implicit Types (lines comments : list str) (c : str).

Lemma parse_comments_loop_acc lines n comments :
  parse_comments_loop lines n comments =
    parse_comments_loop lines n [] ++ comments.
Proof.
  revert comments. induction n as [|idx IH]; intros comments; simpl; [done|].
  destruct (startswith SEMI (strip (nth idx lines []))) eqn:Hsemi; simpl.
  - rewrite (IH (_ :: comments)), (IH [_]). by rewrite <- app_assoc.
  - destruct (is_empty (strip (nth idx lines []))); [apply IH | done].
Qed.

Lemma parse_comments_loop_Forall (P : str -> Prop) lines start n comments :
  n <= start ->
  (forall idx, idx < start ->
     startswith SEMI (strip (nth idx lines [])) = true ->
     P (strip (slice_from_1 (strip (nth idx lines []))))) ->
  Forall P comments ->
  Forall P (parse_comments_loop lines n comments).
Proof.
  intros Hn HP. revert comments Hn.
  induction n as [|idx IH]; intros comments Hn Hc; simpl; [done|].
  destruct (startswith SEMI (strip (nth idx lines []))) eqn:Hsemi; simpl.
  - apply IH; [lia|]. constructor; [|done]. apply HP; [lia | done].
  - destruct (is_empty (strip (nth idx lines []))); [|done].
    apply IH; [lia | done].
Qed.

End ParseComments.

(** C4 does not hold as stated: the spaces after the marker and at the
    end of the comment line are not retained. *)
Lemma C4_comment_stripping_counterexample :
  parse_comments [str_of ";   hello  " ++ [NL]; line "[A]"] 1 = str_of "hello"
  /\ parse_comments [str_of ";   hello  " ++ [NL]; line "[A]"] 1
     <> str_of "  hello  ".
Proof. split; [reflexivity | discriminate]. Qed.

(** C4 (amended). Comment marker stripping in the leading-comment scan trims
    the comment line, drops its first character (the marker [;]) and trims
    what remains, so all white space around the comment text is removed: each
    collected comment is the doubly trimmed text of a comment line above the
    start index and neither begins nor ends with white space; the comment
    line directly above the start index is collected last. *)
Theorem C4_comment_stripping (lines : list str) (start_idx : nat) :
  Forall (fun c =>
            (exists idx, idx < start_idx
               /\ startswith SEMI (strip (nth idx lines [])) = true
               /\ c = strip (slice_from_1 (strip (nth idx lines []))))
            /\ lstrip c = c /\ rstrip c = c)
    (parse_comments_loop lines start_idx [])
  /\ (forall idx, start_idx = S idx ->
      startswith SEMI (strip (nth idx lines [])) = true ->
      exists earlier,
        parse_comments_loop lines start_idx [] =
          earlier ++ [strip (slice_from_1 (strip (nth idx lines [])))]).
Proof.
  split.
  - apply (parse_comments_loop_Forall _ lines start_idx); [lia| |constructor].
    intros idx Hidx Hsemi. split; [by exists idx|].
    split; [apply lstrip_strip | apply rstrip_strip].
  - intros idx -> Hsemi. simpl. rewrite Hsemi. simpl.
    rewrite parse_comments_loop_acc. by eexists.
Qed.

(** ** The writer *)

Section Writer.

Implicit Types (widgets : gmap (str * str) Widget) (e : ConfigEntry.t)
  (job : str * ConfigEntry.t) (js : list (str * ConfigEntry.t))
  (l out : list str) (doc : list ConfigSection.t).

Lemma py_index_lt n len i : py_index n len = Ok i -> i < len.
Proof.
  unfold py_index. repeat case_match; intros [= <-]; lia.
Qed.

Lemma py_index_in_range n len :
  (0 <= n < Z.of_nat len)%Z -> py_index n len = Ok (Z.to_nat n).
Proof. intros. unfold py_index. repeat case_match; try lia; done. Qed.

Lemma py_index_out_of_range n len :
  out_of_range n len = true <-> py_index n len = Raise IndexError.
Proof.
  unfold out_of_range, py_index. rewrite orb_true_iff.
  repeat case_match; split; try done; lia.
Qed.

Lemma py_index_total n len :
  py_index n len = Raise IndexError \/ exists i, py_index n len = Ok i.
Proof. unfold py_index. repeat case_match; eauto. Qed.

Lemma save_entry_Ok widgets name l e l' :
  save_entry widgets name l e = Ok l' <->
  exists widget idx,
    widgets !! (name, ConfigEntry.name e) = Some widget
    /\ py_index (ConfigEntry.line_number e) (length l) = Ok idx
    /\ l' = <[idx := rewritten (nth idx l []) e (widget_value widget)]> l.
Proof.
  unfold save_entry, widget_at, mbind, result_bind.
  destruct (widgets !! (name, ConfigEntry.name e)) as [widget|].
  - destruct (py_index (ConfigEntry.line_number e) (length l)) as [idx|err].
    + split; [intros [= <-]; by eauto|].
      by intros (? & ? & [= <-] & [= <-] & ->).
    + split; [done | by intros (? & ? & _ & ? & _)].
  - split; [done | by intros (? & ? & ? & _)].
Qed.

Lemma save_sections_jobs widgets doc l :
  save_sections widgets doc l = save_jobs widgets (jobs doc) l.
Proof.
  revert l. induction doc as [|sec doc IH]; intros l; [done|].
  simpl. generalize (ConfigSection.name sec). intros name.
  induction (ConfigSection.entries sec) as [|e es IHe] in l |- *; simpl.
  - apply IH.
  - unfold mbind, result_bind in *.
    destruct (save_entry widgets name l e); [apply IHe | done].
Qed.

Lemma save_jobs_length widgets js l out :
  save_jobs widgets js l = Ok out -> length out = length l.
Proof.
  revert l. induction js as [|job js IH]; intros l; simpl.
  - by intros [= <-].
  - unfold mbind, result_bind.
    destruct (save_entry _ _ _ _) as [l'|] eqn:Hstep; [|done].
    apply save_entry_Ok in Hstep as (? & ? & _ & _ & ->).
    intros ->%IH. apply length_insert.
Qed.

(** A line that no iteration addresses is handed over as it was. *)
Lemma save_jobs_untouched widgets js l out i :
  save_jobs widgets js l = Ok out ->
  (forall job, In job js ->
     py_index (ConfigEntry.line_number job.2) (length l) <> Ok i) ->
  out !! i = l !! i.
Proof.
  revert l. induction js as [|job js IH]; intros l; simpl.
  - by intros [= <-].
  - unfold mbind, result_bind.
    destruct (save_entry _ _ _ _) as [l'|] eqn:Hstep; [|done].
    apply save_entry_Ok in Hstep as (widget & idx & _ & Hidx & ->).
    intros Hout Hno. rewrite (IH _ Hout).
    + apply list_lookup_insert_ne. intros ->. by apply (Hno job); [left|].
    + intros job' Hin. rewrite length_insert. apply Hno. by right.
Qed.

(** With line numbers in range and pairwise distinct, the line of an entry
    is rebuilt from the original line, the entry and its widget. *)
Lemma save_jobs_line widgets js l out name e :
  save_jobs widgets js l = Ok out ->
  NoDup (map (fun job => ConfigEntry.line_number job.2) js) ->
  (forall job, In job js ->
     (0 <= ConfigEntry.line_number job.2 < Z.of_nat (length l))%Z) ->
  In (name, e) js ->
  exists widget old,
    widgets !! (name, ConfigEntry.name e) = Some widget
    /\ l !! Z.to_nat (ConfigEntry.line_number e) = Some old
    /\ out !! Z.to_nat (ConfigEntry.line_number e)
       = Some (rewritten old e (widget_value widget)).
Proof.
  revert l. induction js as [|job js IH]; intros l; simpl; [done|].
  unfold mbind, result_bind.
  destruct (save_entry _ _ _ _) as [l'|] eqn:Hstep; [|done].
  apply save_entry_Ok in Hstep as (widget & idx & Hw & Hidx & ->).
  intros Hout [Hnotin Hnd]%NoDup_cons Hrange Hin.
  assert (idx = Z.to_nat (ConfigEntry.line_number job.2)) as Hidx'.
  { rewrite py_index_in_range in Hidx by (apply Hrange; by left).
    by injection Hidx. }
  pose proof (py_index_lt _ _ _ Hidx) as Hlt.
  destruct Hin as [->|Hin].
  - simpl in *. exists widget, (nth idx l []).
    split; [done|]. rewrite <- Hidx'. split.
    + destruct (lookup_lt_is_Some_2 l idx Hlt) as [old Hold].
      by rewrite (nth_lookup_Some _ _ _ _ Hold).
    + rewrite (save_jobs_untouched _ _ _ _ idx Hout).
      * by apply list_lookup_insert_eq.
      * intros job' Hin'. rewrite length_insert.
        rewrite py_index_in_range by (apply Hrange; by right).
        intros [= Heq]. apply Hnotin, list_elem_of_In, in_map_iff.
        exists job'. split; [|done].
        pose proof (Hrange job' (or_intror Hin')).
        pose proof (Hrange (name, e) (or_introl eq_refl)). simpl in *. lia.
  - destruct (IH _ Hout Hnd) as (widget' & old & Hw' & Hold & Hnew); [|done|].
    { intros job' Hin'. rewrite length_insert. apply Hrange. by right. }
    exists widget', old. split; [done|]. split; [|done].
    rewrite list_lookup_insert_ne in Hold; [done|].
    rewrite Hidx'. intros Heq. apply Hnotin, list_elem_of_In, in_map_iff.
    exists (name, e). split; [|done]. simpl.
    pose proof (Hrange (name, e) (or_intror Hin)).
    pose proof (Hrange job (or_introl eq_refl)). simpl in *. lia.
Qed.

(** With a widget for every entry and every line number in range, the
    loop runs to its end. *)
Lemma save_jobs_succeeds widgets js l :
  (forall job, In job js -> is_Some (widgets !! key_of job)) ->
  (forall job, In job js ->
     out_of_range (ConfigEntry.line_number job.2) (length l) = false) ->
  exists out, save_jobs widgets js l = Ok out.
Proof.
  revert l. induction js as [|job js IH]; intros l Hw Hr; simpl; [by eauto|].
  destruct (Hw job (or_introl eq_refl)) as [widget Hwidget].
  destruct (py_index_total (ConfigEntry.line_number job.2) (length l))
    as [Hbad|[idx Hidx]].
  { apply py_index_out_of_range in Hbad.
    rewrite (Hr job (or_introl eq_refl)) in Hbad. done. }
  assert (save_entry widgets job.1 l job.2 =
            Ok (<[idx := rewritten (nth idx l []) job.2 (widget_value widget)]> l))
    as -> by (apply save_entry_Ok; by eauto).
  simpl. apply IH.
  - intros job' Hin. apply Hw. by right.
  - intros job' Hin. rewrite length_insert. apply Hr. by right.
Qed.

(** With a widget for every entry, a line number out of range stops the
    loop with [IndexError]. *)
Lemma save_jobs_raises widgets js l :
  (forall job, In job js -> is_Some (widgets !! key_of job)) ->
  (exists job, In job js /\
     out_of_range (ConfigEntry.line_number job.2) (length l) = true) ->
  save_jobs widgets js l = Raise IndexError.
Proof.
  revert l. induction js as [|job js IH]; intros l Hw (bad & Hin & Hbad).
  { destruct Hin. }
  simpl. destruct (Hw job (or_introl eq_refl)) as [widget Hwidget].
  destruct (py_index_total (ConfigEntry.line_number job.2) (length l))
    as [Hraise|[idx Hidx]].
  - unfold save_entry, widget_at. unfold key_of in Hwidget.
    rewrite Hwidget. simpl. by rewrite Hraise.
  - assert (save_entry widgets job.1 l job.2 =
              Ok (<[idx := rewritten (nth idx l []) job.2 (widget_value widget)]> l))
      as -> by (apply save_entry_Ok; by eauto).
    simpl. apply IH.
    + intros job' Hin'. apply Hw. by right.
    + destruct Hin as [->|Hin].
      * apply py_index_out_of_range in Hbad. congruence.
      * exists bad. by rewrite length_insert.
Qed.

(** An indentation made of spaces is written back as it was. *)
Lemma leading_space_spaces n c (rest : str) :
  isspace c = false -> leading_space (replicate n SPACE ++ c :: rest) = n.
Proof.
  intros Hc. unfold leading_space. rewrite lstrip_app_nonspace by done.
  assert (lstrip (replicate n SPACE) = []) as ->
    by (induction n as [|n IH]; [done | exact IH]).
  rewrite length_app, length_replicate. simpl. lia.
Qed.

Lemma rewritten_space_indent n c (rest : str) e (value : str) :
  isspace c = false ->
  rewritten (replicate n SPACE ++ c :: rest) e value
  = replicate n SPACE ++ new_line e value ++ [NL].
Proof. intros Hc. unfold rewritten. by rewrite leading_space_spaces. Qed.

End Writer.

(** ** The writer on a parsed document *)

Section WriterOnParsed.

Implicit Types (widgets : gmap (str * str) Widget) (e : ConfigEntry.t)
  (job : str * ConfigEntry.t) (js : list (str * ConfigEntry.t))
  (l out : list str) (doc : list ConfigSection.t) (lines : list str).

Lemma in_jobs doc job :
  In job (jobs doc) <->
  exists sec, In sec doc /\ job.1 = ConfigSection.name sec
              /\ In job.2 (ConfigSection.entries sec).
Proof.
  unfold jobs. rewrite in_flat_map. split.
  - intros (sec & Hsec & (e & <- & He)%in_map_iff). by exists sec.
  - intros (sec & Hsec & Hname & He). exists sec. split; [done|].
    apply in_map_iff. exists job.2. split; [|done].
    rewrite <- Hname. by destruct job.
Qed.

Lemma covers_spec widgets doc :
  covers widgets doc = true <->
  forall job, In job (jobs doc) -> is_Some (widgets !! key_of job).
Proof.
  unfold covers. rewrite forallb_forall.
  split; intros H job Hin.
  - eapply bool_decide_eq_true_1, H, Hin.
  - apply bool_decide_eq_true_2, H, Hin.
Qed.

Lemma covers_insert widgets doc key widget :
  covers widgets doc = true -> covers (<[key := widget]> widgets) doc = true.
Proof.
  rewrite !covers_spec. intros H job Hin.
  rewrite lookup_insert_is_Some. destruct (decide (key = key_of job)); [by left|].
  right. split; [done|]. by apply H.
Qed.

Lemma job_lines_sorted doc :
  StronglySorted Z.lt (traversal doc) ->
  StronglySorted Z.lt (map (fun job => ConfigEntry.line_number job.2) (jobs doc))
  /\ forall z, In z (map (fun job => ConfigEntry.line_number job.2) (jobs doc)) ->
       In z (traversal doc).
Proof.
  induction doc as [|sec doc IH]; simpl; [by split; [constructor|]|].
  intros [_ Hs]%StronglySorted_cons.
  apply StronglySorted_app in Hs as (Hcross & Hes & Hdoc).
  destruct (IH Hdoc) as [IHs IHin].
  rewrite map_app, map_map. simpl. split.
  - apply StronglySorted_app_2; [|done|done].
    intros x y Hx Hy. apply Hcross; [done|].
    by apply list_elem_of_In, IHin, list_elem_of_In.
  - intros z [Hz|Hz]%in_app_iff; right; apply in_app_iff; [by left|].
    right. by apply IHin.
Qed.

Lemma sorted_NoDup (zs : list Z) : StronglySorted Z.lt zs -> NoDup zs.
Proof.
  induction 1 as [|z zs _ IH Hall]; [constructor|].
  apply NoDup_cons. split; [|done].
  intros Hin. rewrite Forall_forall in Hall. apply Hall in Hin. lia.
Qed.

Lemma parsed_jobs_NoDup lines :
  NoDup (map (fun job => ConfigEntry.line_number job.2)
           (jobs (parse_loop lines 0 lines []))).
Proof.
  destruct (scanned_parse lines) as [Hs _].
  by apply sorted_NoDup, job_lines_sorted.
Qed.

Lemma parsed_jobs_range lines job :
  In job (jobs (parse_loop lines 0 lines [])) ->
  (0 <= ConfigEntry.line_number job.2 < Z.of_nat (length lines))%Z.
Proof.
  intros (sec & Hsec & _ & He)%in_jobs.
  destruct (scanned_parse lines) as [_ Hb]. rewrite Forall_forall in Hb.
  by apply Hb, list_elem_of_In, (in_traversal_entry _ sec).
Qed.

Lemma parsed_jobs_in_range lines job :
  In job (jobs (parse_loop lines 0 lines [])) ->
  out_of_range (ConfigEntry.line_number job.2) (length lines) = false.
Proof.
  intros H%parsed_jobs_range. unfold out_of_range.
  apply orb_false_iff. split; [apply Z.ltb_ge | apply Z.leb_gt]; lia.
Qed.

(** Two runs of the loop over the same entries, from lines that agree
    outside a set [X] of positions: if every entry whose widget differs
    between the runs addresses a position of [X], the results agree
    outside [X]. *)
Lemma save_jobs_frame (X : nat -> Prop) widgets widgets' js l l' out out' :
  save_jobs widgets js l = Ok out ->
  save_jobs widgets' js l' = Ok out' ->
  length l = length l' ->
  (forall i, ~ X i -> l !! i = l' !! i) ->
  (forall job, In job js ->
     widgets !! key_of job = widgets' !! key_of job
     \/ forall i, py_index (ConfigEntry.line_number job.2) (length l) = Ok i ->
          X i) ->
  forall i, ~ X i -> out !! i = out' !! i.
Proof.
  revert l l'. induction js as [|job js IH]; intros l l'; simpl.
  - by intros [= <-] [= <-].
  - unfold mbind, result_bind.
    destruct (save_entry widgets _ _ _) as [l1|] eqn:Hstep; [|done].
    destruct (save_entry widgets' _ _ _) as [l1'|] eqn:Hstep'; [|done].
    apply save_entry_Ok in Hstep as (w & idx & Hw & Hidx & ->).
    apply save_entry_Ok in Hstep' as (w' & idx' & Hw' & Hidx' & ->).
    intros Hout Hout' Hlen Hagree Hjobs.
    rewrite <- Hlen, Hidx in Hidx'. injection Hidx' as <-.
    eapply IH; [exact Hout | exact Hout' | by rewrite !length_insert | |].
    + intros i Hi. destruct (decide (idx = i)) as [->|Hne].
      * pose proof (py_index_lt _ _ _ Hidx) as Hlt.
        rewrite !list_lookup_insert_eq by lia.
        destruct (Hjobs job (or_introl eq_refl)) as [Heq|HX];
          [|by destruct Hi; apply HX].
        unfold key_of in Heq. rewrite Hw, Hw' in Heq. injection Heq as <-.
        by rewrite !nth_lookup, (Hagree i Hi).
      * rewrite !list_lookup_insert_ne by done. by apply Hagree.
    + intros job' Hin. rewrite length_insert. apply Hjobs. by right.
Qed.

End WriterOnParsed.

(** C1 does not hold as stated: with the widget holding the parsed
    value, the entry line [Foo = bar] comes back as [Foo=bar]. *)
Lemma C1_roundtrip_counterexample :
  save_lines [line "[A]"; line "Foo = bar"]
    (parse_ini_with_comments [line "[A]"; line "Foo = bar"]).1
    {[ (str_of "A", str_of "Foo") := QLineEdit (str_of "bar") ]}
  = Ok [line "[A]"; line "Foo=bar"]
  /\ [line "[A]"; line "Foo=bar"] <> [line "[A]"; line "Foo = bar"].
Proof. split; [vm_compute; reflexivity | discriminate]. Qed.

(** Whatever the widgets hold, these two lines do not come back unchanged. *)
Lemma roundtrip_example_never_identity (widgets : gmap (str * str) Widget) :
  save_lines [line "[A]"; line "Foo = bar"]
    (parse_ini_with_comments [line "[A]"; line "Foo = bar"]).1 widgets
  <> Ok [line "[A]"; line "Foo = bar"].
Proof.
  set (doc := (parse_ini_with_comments [line "[A]"; line "Foo = bar"]).1).
  vm_compute in doc. subst doc.
  unfold save_lines. simpl. unfold save_entry, widget_at. simpl.
  destruct (widgets !! _) as [w|]; [|done]. simpl.
  unfold rewritten, new_line. simpl. intros [= H].
Qed.

(** What the writer hands over for a parsed document. *)
Lemma save_parsed_lines (lines : list str) (widgets : gmap (str * str) Widget) :
  let doc := (parse_ini_with_comments lines).1 in
  let raw_lines := (parse_ini_with_comments lines).2 in
  covers widgets doc = true ->
  exists out,
    save_lines raw_lines doc widgets = Ok out
    /\ length out = length lines
    /\ (forall i,
         (forall sec e, In sec doc -> In e (ConfigSection.entries sec) ->
            ConfigEntry.line_number e <> Z.of_nat i) ->
         out !! i = lines !! i)
    /\ (forall sec e, In sec doc -> In e (ConfigSection.entries sec) ->
         exists i widget old indent,
           ConfigEntry.line_number e = Z.of_nat i
           /\ widgets !! (ConfigSection.name sec, ConfigEntry.name e) = Some widget
           /\ lines !! i = Some old
           /\ length indent = leading_space old
           /\ out !! i
              = Some (indent ++ new_line e (widget_value widget) ++ [NL])).
Proof.
  simpl. intros Hcov. unfold save_lines. rewrite save_sections_jobs.
  set (doc := parse_loop lines 0 lines []).
  destruct (save_jobs_succeeds widgets (jobs doc) lines) as [out Hout].
  { by apply covers_spec. }
  { apply parsed_jobs_in_range. }
  exists out. split; [done|]. split; [by eapply save_jobs_length|]. split.
  - intros i Hno. apply (save_jobs_untouched _ _ _ _ _ Hout).
    intros job Hin. rewrite py_index_in_range by by apply parsed_jobs_range.
    intros [= Hi]. pose proof (parsed_jobs_range _ _ Hin) as Hr.
    apply in_jobs in Hin as (sec & Hsec & _ & He).
    apply (Hno sec job.2 Hsec He). lia.
  - intros sec e Hsec He.
    destruct (save_jobs_line widgets (jobs doc) lines out (ConfigSection.name sec) e)
      as (widget & old & Hw & Hold & Hnew); [done| | | |].
    + apply parsed_jobs_NoDup.
    + apply parsed_jobs_range.
    + apply in_jobs. by exists sec.
    + assert (In (ConfigSection.name sec, e) (jobs doc)) as Hr
        by (apply in_jobs; by exists sec).
      apply parsed_jobs_range in Hr. simpl in Hr.
      exists (Z.to_nat (ConfigEntry.line_number e)), widget, old,
        (replicate (leading_space old) SPACE).
      split; [lia|]. split; [done|]. split; [done|].
      split; [apply length_replicate | exact Hnew].
Qed.


(** The line of every entry of a parsed document, as the writer rebuilds it. *)
Lemma save_parsed_entry_lines (lines : list str)
  (widgets : gmap (str * str) Widget) (out : list str) :
  save_lines lines (parse_loop lines 0 lines []) widgets = Ok out ->
  forall sec e,
    In sec (parse_loop lines 0 lines []) -> In e (ConfigSection.entries sec) ->
    exists i widget old,
      ConfigEntry.line_number e = Z.of_nat i
      /\ widgets !! (ConfigSection.name sec, ConfigEntry.name e) = Some widget
      /\ lines !! i = Some old
      /\ out !! i = Some (rewritten old e (widget_value widget)).
Proof.
  unfold save_lines. rewrite save_sections_jobs. intros Hout sec e Hsec He.
  set (doc := parse_loop lines 0 lines []) in *.
  assert (In (ConfigSection.name sec, e) (jobs doc)) as Hjob
    by (apply in_jobs; by exists sec).
  destruct (save_jobs_line widgets (jobs doc) lines out (ConfigSection.name sec) e)
    as (widget & old & Hw & Hold & Hnew);
    [done | apply parsed_jobs_NoDup | apply parsed_jobs_range | done |].
  apply parsed_jobs_range in Hjob. simpl in Hjob.
  exists (Z.to_nat (ConfigEntry.line_number e)), widget, old.
  split; [lia|]. by split.
Qed.

(** The shape of a rebuilt line: white space, the new text, a newline; the
    white space is the original indentation when that is made of spaces. *)
Lemma rewritten_shape (old : str) :
  exists indent,
    (forall e value, rewritten old e value = indent ++ new_line e value ++ [NL])
    /\ forallb isspace indent = true
    /\ (forall n c rest,
          old = replicate n SPACE ++ c :: rest -> isspace c = false ->
          indent = replicate n SPACE).
Proof.
  exists (replicate (leading_space old) SPACE). split; [done|]. split.
  - apply forallb_forall. by intros c [-> _]%list_elem_of_In%elem_of_replicate.
  - intros n c rest -> Hc. by rewrite leading_space_spaces.
Qed.

(** The value can be read off a rebuilt line. *)
Lemma rewritten_inj (old : str) (e : ConfigEntry.t) (value value' : str) :
  rewritten old e value = rewritten old e value' -> value = value'.
Proof.
  unfold rewritten, new_line. intros H%app_inv_head%app_inv_tail.
  destruct (is_empty (ConfigEntry.inline_comment e)).
  - by apply app_inv_head, app_inv_head in H.
  - by apply app_inv_head, app_inv_head, app_inv_tail in H.
Qed.

(** C1 (amended). Round trip: parsing lines and writing them back, with a
    widget bound to every entry, succeeds and keeps the number of lines.
    Every line that is not the source line of an entry (comments, blank
    lines, headers, ignored lines) is reproduced byte for byte.  The source
    line of an entry is not copied: it is rebuilt, from the value the entry's
    widget holds, as leading white space, then [name=value], then the inline
    comment in its fixed layout if there is one, then a newline.  An
    indentation made of spaces is reproduced exactly, and a line that had
    none gets none. *)
Theorem C1_roundtrip (lines : list str) (widgets : gmap (str * str) Widget) :
  let doc := (parse_ini_with_comments lines).1 in
  let raw_lines := (parse_ini_with_comments lines).2 in
  covers widgets doc = true ->
  exists out,
    save_lines raw_lines doc widgets = Ok out
    /\ length out = length lines
    /\ (forall i,
         (forall sec e, In sec doc -> In e (ConfigSection.entries sec) ->
            ConfigEntry.line_number e <> Z.of_nat i) ->
         out !! i = lines !! i)
    /\ (forall sec e, In sec doc -> In e (ConfigSection.entries sec) ->
         exists i widget old indent,
           ConfigEntry.line_number e = Z.of_nat i
           /\ widgets !! (ConfigSection.name sec, ConfigEntry.name e) = Some widget
           /\ lines !! i = Some old
           /\ out !! i
              = Some (indent ++ new_line e (widget_value widget) ++ [NL])
           /\ forallb isspace indent = true
           /\ (forall n c rest,
                 old = replicate n SPACE ++ c :: rest -> isspace c = false ->
                 indent = replicate n SPACE)).
Proof.
  intros doc raw_lines Hcov.
  destruct (save_parsed_lines lines widgets Hcov) as (out & Hout & Hlen & Hsame & _).
  exists out. split; [exact Hout|]. split; [exact Hlen|]. split; [exact Hsame|].
  intros sec e Hsec He.
  destruct (save_parsed_entry_lines lines widgets out Hout sec e Hsec He)
    as (i & widget & old & Hln & Hw & Hold & Hline).
  destruct (rewritten_shape old) as (indent & Hshape & Hspace & Hexact).
  exists i, widget, old, indent. rewrite <- Hshape. by repeat split.
Qed.

(** A comment, a header, an entry indented with two spaces that has an
    inline comment. *)
Lemma C1_roundtrip_witness :
  exists out,
    save_lines [line "; top"; line "[A]"; line "  Foo = 1 ; keep"]
      (parse_ini_with_comments
         [line "; top"; line "[A]"; line "  Foo = 1 ; keep"]).1
      {[ (str_of "A", str_of "Foo") := QSpinBox 1 ]}
    = Ok out
    /\ out !! 0 = Some (line "; top")
    /\ out !! 1 = Some (line "[A]")
    /\ out !! 2
       = Some (str_of "  Foo=1" ++ [TAB; TAB; TAB] ++ str_of "; keep" ++ [NL]).
Proof.
  destruct (C1_roundtrip
              [line "; top"; line "[A]"; line "  Foo = 1 ; keep"]
              {[ (str_of "A", str_of "Foo") := QSpinBox 1 ]})
    as (out & Hout & _ & Hsame & Hentry); [vm_compute; reflexivity|].
  exists out. split; [exact Hout|]. split; [|split].
  - apply (Hsame 0). intros sec e [<-|[]] [<-|[]]. discriminate.
  - apply (Hsame 1). intros sec e [<-|[]] [<-|[]]. discriminate.
  - destruct (Hentry
                (ConfigSection.mk (str_of "A") (str_of "top") 1
                   [ConfigEntry.mk (str_of "Foo") (str_of "1") (str_of "keep") 2
                      (str_of "keep")])
                (ConfigEntry.mk (str_of "Foo") (str_of "1") (str_of "keep") 2
                   (str_of "keep")))
      as (i & widget & old & indent & Hln & Hw & Hold & Hline & _ & Hexact);
      [left; reflexivity | left; reflexivity |].
    simpl in Hln. assert (i = 2) as -> by lia.
    injection Hold as <-. injection Hw as <-.
    rewrite (Hexact 2 70%N (str_of "oo = 1 ; keep" ++ [NL]) eq_refl eq_refl)
      in Hline.
    exact Hline.
Defined.

(** C2 does not hold as stated: with every other widget holding its
    parsed value, editing [Foo] alone gives an output that differs from the
    input in two lines, since the line of [Baz] is rewritten too. *)
Lemma C2_update_locality_counterexample :
  save_lines [line "[A]"; line "Foo = bar"; line "Baz = qux"]
    (parse_ini_with_comments
       [line "[A]"; line "Foo = bar"; line "Baz = qux"]).1
    (<[ (str_of "A", str_of "Foo") := QLineEdit (str_of "x") ]>
       {[ (str_of "A", str_of "Foo") := QLineEdit (str_of "bar");
          (str_of "A", str_of "Baz") := QLineEdit (str_of "qux") ]})
  = Ok [line "[A]"; line "Foo=x"; line "Baz=qux"]
  /\ count_diff [line "[A]"; line "Foo=x"; line "Baz=qux"]
       [line "[A]"; line "Foo = bar"; line "Baz = qux"] = 2.
Proof. split; vm_compute; reflexivity. Qed.

(** C2 (amended). Update locality: take a parsed document with a widget
    bound to every entry and replace the widget of one [(section, key)].
    The source line of every entry that pair addresses is rebuilt with the
    value of the new widget, and differs from what is written without the
    edit whenever the value text differs.  The source line of every other
    entry is rebuilt from its own widget, exactly as without the edit.  So
    the output with the edit differs from the output without it only in the
    lines the pair addresses, in at most one line when a single entry
    carries the pair; and every line that is not the source line of an
    entry is byte-identical to the input.  Measured against the input, the
    lines of all entries are rebuilt (leading white space, [name=value],
    inline comment, newline; an indentation of spaces kept exactly), not
    only the addressed one. *)
Theorem C2_update_locality (lines : list str)
  (widgets : gmap (str * str) Widget) (key : str * str) (widget' : Widget) :
  let doc := (parse_ini_with_comments lines).1 in
  let raw_lines := (parse_ini_with_comments lines).2 in
  covers widgets doc = true ->
  exists out out',
    save_lines raw_lines doc widgets = Ok out
    /\ save_lines raw_lines doc (<[key := widget']> widgets) = Ok out'
    /\ length out' = length out
    /\ (forall sec e, In sec doc -> In e (ConfigSection.entries sec) ->
         exists i widget old indent,
           ConfigEntry.line_number e = Z.of_nat i
           /\ widgets !! (ConfigSection.name sec, ConfigEntry.name e) = Some widget
           /\ lines !! i = Some old
           /\ out !! i
              = Some (indent ++ new_line e (widget_value widget) ++ [NL])
           /\ forallb isspace indent = true
           /\ (forall n c rest,
                 old = replicate n SPACE ++ c :: rest -> isspace c = false ->
                 indent = replicate n SPACE)
           /\ ((ConfigSection.name sec, ConfigEntry.name e) = key ->
               out' !! i
               = Some (indent ++ new_line e (widget_value widget') ++ [NL])
               /\ (widget_value widget' <> widget_value widget ->
                   out' !! i <> out !! i))
           /\ ((ConfigSection.name sec, ConfigEntry.name e) <> key ->
               out' !! i = out !! i))
    /\ (forall i,
         (forall sec e, In sec doc -> In e (ConfigSection.entries sec) ->
            ConfigEntry.line_number e = Z.of_nat i ->
            (ConfigSection.name sec, ConfigEntry.name e) <> key) ->
         out' !! i = out !! i)
    /\ ((forall sec e sec' e',
           In sec doc -> In e (ConfigSection.entries sec) ->
           In sec' doc -> In e' (ConfigSection.entries sec') ->
           (ConfigSection.name sec, ConfigEntry.name e) = key ->
           (ConfigSection.name sec', ConfigEntry.name e') = key ->
           e = e') ->
        exists i0, forall i, i <> i0 -> out' !! i = out !! i)
    /\ (forall i,
         (forall sec e, In sec doc -> In e (ConfigSection.entries sec) ->
            ConfigEntry.line_number e <> Z.of_nat i) ->
         out' !! i = lines !! i).
Proof.
  simpl. intros Hcov.
  destruct (save_parsed_lines lines widgets Hcov) as (out & Hout & Hlen & _).
  destruct (save_parsed_lines lines (<[key := widget']> widgets))
    as (out' & Hout' & Hlen' & Hsame' & _); [by apply covers_insert|].
  simpl in *. exists out, out'.
  split; [done|]. split; [done|]. split; [congruence|].
  set (doc := parse_loop lines 0 lines []) in *.
  assert (forall i,
            (forall sec e, In sec doc -> In e (ConfigSection.entries sec) ->
               ConfigEntry.line_number e = Z.of_nat i ->
               (ConfigSection.name sec, ConfigEntry.name e) <> key) ->
            out' !! i = out !! i) as Hlocal.
  { intros i Hi. unfold save_lines in Hout, Hout'.
    rewrite save_sections_jobs in Hout, Hout'. symmetry.
    apply (save_jobs_frame
             (fun i => exists sec e, In sec doc /\ In e (ConfigSection.entries sec)
                /\ ConfigEntry.line_number e = Z.of_nat i
                /\ (ConfigSection.name sec, ConfigEntry.name e) = key)
             widgets (<[key := widget']> widgets) (jobs doc) lines lines out out');
      [done | done | done | done | |].
    - intros job Hin. destruct (decide (key = key_of job)) as [Hk|Hk].
      + right. intros j Hj.
        rewrite py_index_in_range in Hj by by apply parsed_jobs_range.
        injection Hj as <-. pose proof (parsed_jobs_range _ _ Hin) as Hr.
        apply in_jobs in Hin as (sec & Hsec & Hname & He).
        exists sec, job.2. split; [done|]. split; [done|]. split; [lia|].
        rewrite Hk. unfold key_of. by rewrite Hname.
      + left. by rewrite lookup_insert_ne.
    - intros (sec & e & Hsec & He & Hln & Hkey). by apply (Hi sec e). }
  split; [|split; [exact Hlocal|split; [|exact Hsame']]].
  - intros sec e Hsec He.
    destruct (save_parsed_entry_lines lines widgets out Hout sec e Hsec He)
      as (i & widget & old & Hln & Hw & Hold & Hline).
    destruct (save_parsed_entry_lines lines _ out' Hout' sec e Hsec He)
      as (i' & w' & old' & Hln' & Hw' & Hold' & Hline').
    assert (i' = i) as -> by lia.
    rewrite Hold in Hold'. injection Hold' as <-.
    destruct (rewritten_shape old) as (indent & Hshape & Hspace & Hexact).
    exists i, widget, old, indent. rewrite <- !Hshape.
    do 6 (split; [done|]). split.
    + intros Hkey. rewrite Hkey, lookup_insert_eq in Hw'. injection Hw' as <-.
      split; [done|].
      intros Hne Heq. rewrite Hline, Hline' in Heq.
      injection Heq as Heq. by apply rewritten_inj in Heq.
    + intros Hkey. rewrite lookup_insert_ne in Hw' by done.
      rewrite Hw in Hw'. injection Hw' as <-. by rewrite Hline, Hline'.
  - intros Huniq.
    destruct (decide (Exists (fun job => key_of job = key) (jobs doc)))
      as [Hex|Hno].
    + apply Exists_exists in Hex as (job0 & Hin0 & Hkey0).
      apply list_elem_of_In, in_jobs in Hin0 as (sec0 & Hsec0 & Hname0 & He0).
      exists (Z.to_nat (ConfigEntry.line_number job0.2)).
      intros i Hne. apply Hlocal. intros sec e Hsec He Hln Hkey.
      assert (job0.2 = e) as Heq.
      { apply (Huniq sec0 job0.2 sec e); try done.
        rewrite <- Hkey0. unfold key_of. by rewrite Hname0. }
      rewrite Heq in Hne. lia.
    + exists 0. intros i _. apply Hlocal. intros sec e Hsec He _ Hkey.
      apply Hno, Exists_exists. exists (ConfigSection.name sec, e).
      split; [|done]. apply list_elem_of_In, in_jobs. by exists sec.
Qed.

(** Editing [Foo]: its line carries the new value, the line of [Baz] is
    what the save without the edit writes. *)
Lemma C2_update_locality_witness :
  exists out out',
    save_lines [line "[A]"; line "Foo = bar"; line "Baz = qux"]
      (parse_ini_with_comments
         [line "[A]"; line "Foo = bar"; line "Baz = qux"]).1
      {[ (str_of "A", str_of "Foo") := QLineEdit (str_of "bar");
         (str_of "A", str_of "Baz") := QLineEdit (str_of "qux") ]}
    = Ok out
    /\ save_lines [line "[A]"; line "Foo = bar"; line "Baz = qux"]
         (parse_ini_with_comments
            [line "[A]"; line "Foo = bar"; line "Baz = qux"]).1
         (<[ (str_of "A", str_of "Foo") := QLineEdit (str_of "x") ]>
            {[ (str_of "A", str_of "Foo") := QLineEdit (str_of "bar");
               (str_of "A", str_of "Baz") := QLineEdit (str_of "qux") ]})
       = Ok out'
    /\ length out' = length out
    /\ out' !! 1 = Some (line "Foo=x")
    /\ out' !! 2 = out !! 2.
Proof.
  destruct (C2_update_locality
              [line "[A]"; line "Foo = bar"; line "Baz = qux"]
              {[ (str_of "A", str_of "Foo") := QLineEdit (str_of "bar");
                 (str_of "A", str_of "Baz") := QLineEdit (str_of "qux") ]}
              (str_of "A", str_of "Foo") (QLineEdit (str_of "x")))
    as (out & out' & Hout & Hout' & Hlen & Hentry & _);
    [vm_compute; reflexivity|].
  exists out, out'. split; [exact Hout|]. split; [exact Hout'|].
  split; [exact Hlen|]. split.
  - destruct (Hentry
                (ConfigSection.mk (str_of "A") [] 0
                   [ConfigEntry.mk (str_of "Foo") (str_of "bar") [] 1 [];
                    ConfigEntry.mk (str_of "Baz") (str_of "qux") [] 2 []])
                (ConfigEntry.mk (str_of "Foo") (str_of "bar") [] 1 []))
      as (i & widget & old & indent & Hln & _ & Hold & _ & _ & Hexact & Hkey & _);
      [left; reflexivity | left; reflexivity |].
    simpl in Hln. assert (i = 1) as -> by lia. injection Hold as <-.
    destruct (Hkey eq_refl) as [Hline _].
    rewrite (Hexact 0 70%N (str_of "oo = bar" ++ [NL]) eq_refl eq_refl) in Hline.
    exact Hline.
  - destruct (Hentry
                (ConfigSection.mk (str_of "A") [] 0
                   [ConfigEntry.mk (str_of "Foo") (str_of "bar") [] 1 [];
                    ConfigEntry.mk (str_of "Baz") (str_of "qux") [] 2 []])
                (ConfigEntry.mk (str_of "Baz") (str_of "qux") [] 2 []))
      as (i & widget & old & indent & Hln & _ & _ & _ & _ & _ & _ & Hother);
      [left; reflexivity | right; left; reflexivity |].
    simpl in Hln. assert (i = 2) as -> by lia.
    apply Hother. discriminate.
Defined.

(** C3. Indentation: a tab-indented entry line comes back indented with a
    space, because the leading white space is counted and that many spaces
    are written in its place. *)
Theorem C3_tab_indentation_becomes_spaces :
  save_lines [line "[A]"; TAB :: line "Foo=bar"]
    (parse_ini_with_comments [line "[A]"; TAB :: line "Foo=bar"]).1
    {[ (str_of "A", str_of "Foo") := QLineEdit (str_of "baz") ]}
  = Ok [line "[A]"; SPACE :: line "Foo=baz"].
Proof. vm_compute. reflexivity. Qed.

(** ** Line numbers the raw lines do not have *)

Section Mismatch.

Implicit Types (widgets : gmap (str * str) Widget)
  (js : list (str * ConfigEntry.t)) (l : list str).

Lemma save_jobs_fails widgets js l :
  (exists job, In job js /\
     out_of_range (ConfigEntry.line_number job.2) (length l) = true) ->
  exists err, save_jobs widgets js l = Raise err.
Proof.
  revert l. induction js as [|job js IH]; intros l (bad & Hin & Hbad).
  { destruct Hin. }
  simpl. unfold mbind, result_bind.
  destruct (save_entry widgets job.1 l job.2) as [l'|err] eqn:Hstep;
    [|by eauto].
  apply save_entry_Ok in Hstep as (widget & idx & _ & Hidx & ->).
  apply IH. destruct Hin as [->|Hin].
  - apply py_index_out_of_range in Hbad. congruence.
  - exists bad. by rewrite length_insert.
Qed.

End Mismatch.

(** C8 does not hold as stated: a line number of [-1] is no 0-based
    index into the three raw lines, yet the writer raises nothing and
    overwrites the last line, a comment. *)
Lemma C8_document_mismatch_counterexample :
  save_lines [line "[A]"; line "Foo=bar"; line "; end"]
    [ConfigSection.mk (str_of "A") [] 0
       [ConfigEntry.mk (str_of "Foo") (str_of "bar") [] (-1) []]]
    {[ (str_of "A", str_of "Foo") := QLineEdit (str_of "x") ]}
  = Ok [line "[A]"; line "Foo=bar"; line "Foo=x"].
Proof. vm_compute. reflexivity. Qed.

(** C8 (amended). Line number out of range: when some entry of the model has
    a line number [n] with [n >= len] or [n < -len], [len] being the number
    of raw lines, the writer stops with an exception before the file is
    opened, so the stored file keeps every line it had; with a widget bound
    to every entry the exception is Python's [IndexError].  The writer has no
    check of its own and no error type of its own: a negative [n] from
    [-len] on is taken as an index from the end. *)
Theorem C8_document_mismatch (original_lines : list str)
  (sections : list ConfigSection.t) (widgets : gmap (str * str) Widget)
  (file : list str) :
  existsb (fun e => out_of_range (ConfigEntry.line_number e)
                      (length original_lines))
    (all_entries sections) = true ->
  (exists err, save_lines original_lines sections widgets = Raise err)
  /\ (covers widgets sections = true ->
      save_lines original_lines sections widgets = Raise IndexError)
  /\ save_ini original_lines sections widgets file = file.
Proof.
  intros (e & (sec & Hsec & He)%in_all_entries & Hbad)%existsb_exists.
  assert (exists job, In job (jobs sections) /\
            out_of_range (ConfigEntry.line_number job.2)
              (length original_lines) = true) as Hjob.
  { exists (ConfigSection.name sec, e). split; [|done].
    apply in_jobs. by exists sec. }
  assert (exists err, save_lines original_lines sections widgets = Raise err)
    as [err Herr].
  { unfold save_lines. rewrite save_sections_jobs. by apply save_jobs_fails. }
  split; [by exists err|]. split.
  - intros Hcov. unfold save_lines. rewrite save_sections_jobs.
    apply save_jobs_raises; [by apply covers_spec | done].
  - unfold save_ini. by rewrite Herr.
Qed.

(** An entry recorded at line 7 of a file of two lines. *)
Lemma C8_document_mismatch_witness :
  save_lines [line "[A]"; line "Foo=bar"]
    [ConfigSection.mk (str_of "A") [] 0
       [ConfigEntry.mk (str_of "Foo") (str_of "bar") [] 7 []]]
    {[ (str_of "A", str_of "Foo") := QLineEdit (str_of "x") ]}
  = Raise IndexError
  /\ save_ini [line "[A]"; line "Foo=bar"]
       [ConfigSection.mk (str_of "A") [] 0
          [ConfigEntry.mk (str_of "Foo") (str_of "bar") [] 7 []]]
       {[ (str_of "A", str_of "Foo") := QLineEdit (str_of "x") ]}
       [line "[A]"; line "Foo=bar"]
     = [line "[A]"; line "Foo=bar"].
Proof.
  destruct (C8_document_mismatch
              [line "[A]"; line "Foo=bar"]
              [ConfigSection.mk (str_of "A") [] 0
                 [ConfigEntry.mk (str_of "Foo") (str_of "bar") [] 7 []]]
              {[ (str_of "A", str_of "Foo") := QLineEdit (str_of "x") ]}
              [line "[A]"; line "Foo=bar"])
    as (_ & Hraise & Hfile); [reflexivity|].
  split; [apply Hraise; vm_compute; reflexivity | exact Hfile].
Defined.


(** * Further properties of the parser *)

Section ParserShape.

Implicit Types (doc : list ConfigSection.t) (e : ConfigEntry.t)
  (sec : ConfigSection.t) (raw : str) (lines rest : list str).

Lemma section_heads_append_entry e doc :
  section_heads (append_entry e doc) = section_heads doc.
Proof.
  destruct doc as [|s doc _] using rev_ind; [done|].
  rewrite append_entry_snoc. unfold section_heads. by rewrite !map_app.
Qed.

Lemma is_assignment_not_header raw :
  is_assignment raw = true -> is_header raw = false.
Proof.
  unfold is_assignment. intros [[_ H]%andb_prop _]%andb_prop.
  by apply negb_true_iff.
Qed.

Lemma section_heads_loop lines i rest doc :
  section_heads (parse_loop lines i rest doc)
  = section_heads doc ++ header_lines lines i rest.
Proof.
  revert i doc. induction rest as [|raw rest IH]; intros i doc; simpl.
  - by rewrite app_nil_r.
  - rewrite IH.
    destruct (parse_line_cases lines doc i raw)
      as [[Hh ->]|[(Ha & _ & k & v & _ & _ & ->)|(Hh & _ & ->)]].
    + rewrite Hh. unfold section_heads at 1. rewrite map_app. simpl.
      by rewrite <- app_assoc.
    + by rewrite section_heads_append_entry, (is_assignment_not_header _ Ha).
    + by rewrite Hh.
Qed.

Lemma parse_comments_loop_prefix lines (more : list str) n comments :
  n <= length lines ->
  parse_comments_loop (lines ++ more) n comments
  = parse_comments_loop lines n comments.
Proof.
  revert comments. induction n as [|idx IH]; intros comments Hn; simpl; [done|].
  rewrite app_nth1 by lia.
  destruct (startswith SEMI (strip (nth idx lines []))
            || is_empty (strip (nth idx lines []))); [|done].
  apply IH. lia.
Qed.

Lemma parse_line_prefix lines (more : list str) doc i raw :
  i <= length lines ->
  parse_line (lines ++ more) doc i raw = parse_line lines doc i raw.
Proof.
  intros Hi.
  assert (parse_comments (lines ++ more) i = parse_comments lines i) as Hc
    by (unfold parse_comments; by rewrite parse_comments_loop_prefix).
  unfold parse_line, make_entry. by rewrite Hc.
Qed.

Lemma parse_loop_prefix lines (more : list str) i rest doc :
  i + length rest <= length lines ->
  parse_loop (lines ++ more) i rest doc = parse_loop lines i rest doc.
Proof.
  revert i doc. induction rest as [|raw rest IH]; intros i doc Hi; simpl; [done|].
  simpl in Hi. rewrite parse_line_prefix by lia. apply IH. lia.
Qed.

Lemma make_entry_fields lines i k v :
  contains EQUALS k = false -> parsed_fields (make_entry lines i k v).
Proof.
  intros Hk. unfold parsed_fields.
  rewrite make_entry_name, contains_strip, strip_idem by done.
  split; [done|]. split; [done|].
  destruct (contains SEMI v) eqn:Hv.
  - destruct (contains_split _ _ Hv) as (a & b & -> & Ha).
    destruct (make_entry_commented lines i k a b Ha) as [-> ->].
    by rewrite contains_strip, !strip_idem.
  - destruct (make_entry_plain lines i k v Hv) as [-> ->].
    by rewrite contains_strip, strip_idem.
Qed.

Lemma parsed_fields_loop lines i rest doc :
  Forall parsed_fields (all_entries doc) ->
  Forall parsed_fields (all_entries (parse_loop lines i rest doc)).
Proof.
  revert i doc. induction rest as [|raw rest IH]; intros i doc H; simpl; [done|].
  apply IH.
  destruct (parse_line_cases lines doc i raw)
    as [[_ ->]|[(_ & Hne & k & v & _ & Hk & ->)|(_ & _ & ->)]]; [| |done].
  - rewrite all_entries_app. simpl. by rewrite app_nil_r.
  - rewrite all_entries_append_entry by done. apply Forall_app. split; [done|].
    constructor; [by apply make_entry_fields | constructor].
Qed.

Lemma make_entry_tooltip lines i k v :
  ConfigEntry.tooltip (make_entry lines i k v) =
    if contains SEMI v then
      if is_empty (parse_comments lines i)
      then ConfigEntry.inline_comment (make_entry lines i k v)
      else parse_comments lines i ++ [NL]
           ++ ConfigEntry.inline_comment (make_entry lines i k v)
    else parse_comments lines i.
Proof.
  destruct (contains SEMI v) eqn:Hv.
  - destruct (contains_split _ _ Hv) as (a & b & -> & Ha).
    unfold make_entry. rewrite contains_strip, contains_app by done. simpl.
    rewrite orb_true_r, strip_around by done.
    rewrite split_1_first by (by rewrite contains_lstrip). simpl.
    by destruct (is_empty (parse_comments lines i)).
  - unfold make_entry. by rewrite contains_strip, Hv.
Qed.

End ParserShape.

(** X1. Sections and header lines: the sections of the parsed document are
    the header lines of the file, one section per header line and in source
    order, so a repeated header gives repeated sections.  Each section has
    the text between the brackets as name, the index of its header line as
    line number and the comment block above that line as tooltip. *)
Theorem X1_sections_are_header_lines (lines : list str) :
  section_heads (parse_ini_with_comments lines).1 = header_lines lines 0 lines.
Proof. simpl. by rewrite section_heads_loop. Qed.

(** X2. Entries and assignment lines: some entry of the parsed document
    carries the line number [i] exactly when line [i] is neither blank, nor a
    comment, nor a header, contains [=] and has a header line above it.
    Comment lines that contain [=], lines without [=] and lines above the
    first header never become entries. *)
Theorem X2_entries_are_assignment_lines (lines : list str) (i : nat) (raw : str) :
  lines !! i = Some raw ->
  (exists sec e,
     In sec (parse_ini_with_comments lines).1
     /\ In e (ConfigSection.entries sec)
     /\ ConfigEntry.line_number e = Z.of_nat i)
  <-> is_assignment raw && existsb is_header (take i lines) = true.
Proof.
  intros Hi. simpl. split.
  - intros (sec & e & Hsec & He & Hln).
    destruct (is_assignment raw && existsb is_header (take i lines)) eqn:Hb;
      [done|].
    exfalso. apply (no_entry_otherwise lines i raw e Hi Hb); [|done].
    apply in_all_entries. by exists sec.
  - intros [Ha Hact]%andb_prop.
    assert (contains EQUALS (strip raw) = true) as Heq
      by (unfold is_assignment in Ha; by apply andb_prop in Ha as [_ ?]).
    destruct (contains_split _ _ Heq) as (k & v & Hk & Hnk).
    destruct (entry_of_assignment lines i raw k v Hi Ha Hact Hk Hnk) as [Hin _].
    apply in_all_entries in Hin as (sec & Hsec & He).
    exists sec, (make_entry lines i k v).
    split; [done|]. split; [done | apply make_entry_line_number].
Qed.

(** The assignment under [[A]] becomes an entry; the commented one does not
    matter. *)
Lemma X2_entries_are_assignment_lines_witness :
  exists sec e,
    In sec (parse_ini_with_comments [line "; a=b"; line "[A]"; line "k=v"]).1
    /\ In e (ConfigSection.entries sec)
    /\ ConfigEntry.line_number e = 2%Z.
Proof.
  apply (X2_entries_are_assignment_lines
           [line "; a=b"; line "[A]"; line "k=v"] 2 (line "k=v")); reflexivity.
Defined.

(** X3. Append-only parsing: lines added at the end of a file leave what was
    parsed from the earlier lines in place.  The document of the longer file
    starts with the same sections (name and line number) and the same
    entries, in the same order; what it has more carries line numbers from
    the length of the shorter file on. *)
Theorem X3_parsing_is_append_only (lines more : list str) :
  exists hs es,
    headers (parse_ini_with_comments (lines ++ more)).1
    = headers (parse_ini_with_comments lines).1 ++ hs
    /\ all_entries (parse_ini_with_comments (lines ++ more)).1
       = all_entries (parse_ini_with_comments lines).1 ++ es
    /\ Forall (fun h => (Z.of_nat (length lines) <= h.2)%Z) hs
    /\ Forall (fun e => (Z.of_nat (length lines) <= ConfigEntry.line_number e)%Z)
         es.
Proof.
  simpl. rewrite parse_loop_app. simpl.
  rewrite (parse_loop_prefix lines more 0 lines []) by (simpl; lia).
  apply parse_loop_grows.
Qed.

(** X4. Fields of parsed entries: in a parsed document every entry has a name
    without [=], a value without [;], and name, value and inline comment
    carry no white space at either end. *)
Theorem X4_parsed_entry_fields (lines : list str)
  (sec : ConfigSection.t) (e : ConfigEntry.t) :
  In sec (parse_ini_with_comments lines).1 ->
  In e (ConfigSection.entries sec) ->
  contains EQUALS (ConfigEntry.name e) = false
  /\ strip (ConfigEntry.name e) = ConfigEntry.name e
  /\ contains SEMI (ConfigEntry.value e) = false
  /\ strip (ConfigEntry.value e) = ConfigEntry.value e
  /\ strip (ConfigEntry.inline_comment e) = ConfigEntry.inline_comment e.
Proof.
  simpl. intros Hsec He.
  assert (Forall parsed_fields (all_entries (parse_loop lines 0 lines []))) as H
    by (apply parsed_fields_loop; constructor).
  rewrite Forall_forall in H. apply H, list_elem_of_In, in_all_entries.
  by exists sec.
Qed.

(** The entry of [ Foo = a=b ; c ; d ]. *)
Lemma X4_parsed_entry_fields_witness :
  contains EQUALS (str_of "Foo") = false
  /\ strip (str_of "Foo") = str_of "Foo"
  /\ contains SEMI (str_of "a=b") = false
  /\ strip (str_of "a=b") = str_of "a=b"
  /\ strip (str_of "c ; d") = str_of "c ; d".
Proof.
  apply (X4_parsed_entry_fields
           [line "[A]"; line " Foo = a=b ; c ; d "]
           (ConfigSection.mk (str_of "A") [] 0
              [ConfigEntry.mk (str_of "Foo") (str_of "a=b") (str_of "c ; d") 1
                 (str_of "c ; d")])
           (ConfigEntry.mk (str_of "Foo") (str_of "a=b") (str_of "c ; d") 1
              (str_of "c ; d"))).
  - left. reflexivity.
  - left. reflexivity.
Defined.

(** * Further properties of the comment scan *)

Section CommentBlock.

Implicit Types (above block below lines comments : list str) (raw : str).

(** The scan walks up through a run of blank and comment lines, collecting
    the comments in file order. *)
Lemma parse_comments_loop_block above block below comments :
  forallb is_skipped block = true ->
  parse_comments_loop (above ++ block ++ below) (length above + length block)
    comments
  = parse_comments_loop (above ++ block ++ below) (length above)
      (map comment_text (List.filter is_comment_line block) ++ comments).
Proof.
  revert below comments.
  induction block as [|raw block IH] using rev_ind; intros below comments.
  - simpl. by rewrite Nat.add_0_r.
  - rewrite forallb_app. simpl. rewrite andb_true_r.
    intros [Hblock Hraw]%andb_prop.
    rewrite length_app. simpl.
    replace (length above + (length block + 1))
      with (S (length above + length block)) by lia.
    simpl.
    replace (nth (length above + length block)
               (above ++ (block ++ [raw]) ++ below) []) with raw.
    2:{ rewrite <- (app_assoc block), app_assoc, <- length_app.
        simpl. by rewrite nth_middle. }
    unfold is_skipped in Hraw. rewrite orb_comm in Hraw. rewrite Hraw.
    rewrite <- (app_assoc block [raw] below). simpl.
    rewrite IH by done. f_equal.
    rewrite List.filter_app, map_app. simpl.
    fold (is_comment_line raw). destruct (is_comment_line raw); simpl.
    + by rewrite <- app_assoc.
    + by rewrite app_nil_r.
Qed.

(** It stops below the first line that is neither blank nor a comment, and
    at the top of the file. *)
Lemma parse_comments_loop_stop above rest comments :
  match last above with
  | Some stop => is_skipped stop
  | None => false
  end = false ->
  parse_comments_loop (above ++ rest) (length above) comments = comments.
Proof.
  destruct above as [|stop above _] using rev_ind; [done|].
  rewrite last_snoc, length_app. simpl. intros Hstop.
  replace (length above + 1) with (S (length above)) by lia. simpl.
  rewrite <- app_assoc. simpl. rewrite nth_middle.
  unfold is_skipped in Hstop. rewrite orb_comm in Hstop. by rewrite Hstop.
Qed.

End CommentBlock.

(** X5. Leading comment block: for a run [block] of blank and comment lines
    that starts at the top of the file or right below a line that is neither,
    the comment found from the line after the run is the text of the comment
    lines of the run, in file order, joined by newlines.  Blank lines inside
    the run neither end the scan nor add anything, and nothing above the run
    or from the start index on matters. *)
Theorem X5_leading_comment_block (above block below : list str) :
  match last above with
  | Some stop => is_skipped stop
  | None => false
  end = false ->
  forallb is_skipped block = true ->
  parse_comments (above ++ block ++ below) (length (above ++ block))
  = join [NL] (map comment_text (List.filter is_comment_line block)).
Proof.
  intros Hstop Hblock. unfold parse_comments. rewrite length_app.
  rewrite parse_comments_loop_block by done.
  rewrite parse_comments_loop_stop by done. by rewrite app_nil_r.
Qed.

(** Two comments around a blank line, below an entry and above a header. *)
Lemma X5_leading_comment_block_witness :
  parse_comments
    ([line "[A]"; line "k=v"]
     ++ [line "; first"; line ""; line ";second "] ++ [line "[B]"])
    (length ([line "[A]"; line "k=v"]
             ++ [line "; first"; line ""; line ";second "]))
  = str_of "first" ++ [NL] ++ str_of "second".
Proof.
  apply (X5_leading_comment_block
           [line "[A]"; line "k=v"]
           [line "; first"; line ""; line ";second "] [line "[B]"]);
    reflexivity.
Defined.

(** X6. Tooltip of an entry: for an assignment line under an active section,
    the entry's tooltip is the comment block above the line when the text
    after the first [=] has no [;].  When it has one, the tooltip is the
    inline comment alone if there is no block above, and otherwise the
    block, a newline and the inline comment, also when the inline comment is
    empty. *)
Theorem X6_entry_tooltip (lines : list str) (i : nat) (raw k v : str) :
  lines !! i = Some raw ->
  existsb is_header (take i lines) = true ->
  is_assignment raw = true ->
  strip raw = k ++ EQUALS :: v ->
  contains EQUALS k = false ->
  exists sec e,
    In sec (parse_ini_with_comments lines).1
    /\ In e (ConfigSection.entries sec)
    /\ ConfigEntry.line_number e = Z.of_nat i
    /\ ConfigEntry.tooltip e =
         if contains SEMI v then
           if is_empty (parse_comments lines i)
           then ConfigEntry.inline_comment e
           else parse_comments lines i ++ [NL] ++ ConfigEntry.inline_comment e
         else parse_comments lines i.
Proof.
  intros Hi Hact Ha Hk Hnk. simpl.
  destruct (entry_of_assignment lines i raw k v Hi Ha Hact Hk Hnk) as [Hin _].
  apply in_all_entries in Hin as (sec & Hsec & He).
  exists sec, (make_entry lines i k v).
  split; [done|]. split; [done|]. split; [apply make_entry_line_number|].
  apply make_entry_tooltip.
Qed.

(** A comment above and an empty inline comment: the tooltip ends with the
    newline. *)
Lemma X6_entry_tooltip_witness :
  exists sec e,
    In sec (parse_ini_with_comments [line "[A]"; line "; note"; line "Foo=1 ;"]).1
    /\ In e (ConfigSection.entries sec)
    /\ ConfigEntry.line_number e = 2%Z
    /\ ConfigEntry.tooltip e = str_of "note" ++ [NL] ++ ConfigEntry.inline_comment e.
Proof.
  apply (X6_entry_tooltip [line "[A]"; line "; note"; line "Foo=1 ;"] 2
           (line "Foo=1 ;") (str_of "Foo") (str_of "1 ;")); reflexivity.
Defined.

(** * Further properties of the writer *)

Section WriterErrors.

Implicit Types (widgets : gmap (str * str) Widget)
  (js : list (str * ConfigEntry.t)) (l : list str).

Lemma forallb_false_exists {A : Type} (f : A -> bool) (xs : list A) :
  forallb f xs = false -> exists x, In x xs /\ f x = false.
Proof.
  induction xs as [|x xs IH]; simpl; [done|].
  destruct (f x) eqn:Hx; simpl.
  - intros (y & Hy & Hfy)%IH. exists y. by auto.
  - intros _. exists x. by auto.
Qed.

(** With every line number in range, a missing widget stops the loop with
    [KeyError]. *)
Lemma save_jobs_key_error widgets js l :
  (forall job, In job js ->
     out_of_range (ConfigEntry.line_number job.2) (length l) = false) ->
  (exists job, In job js /\ widgets !! key_of job = None) ->
  save_jobs widgets js l = Raise KeyError.
Proof.
  revert l. induction js as [|job js IH]; intros l Hr (bad & Hin & Hbad).
  { destruct Hin. }
  simpl. unfold save_entry, widget_at. fold (key_of job).
  destruct (widgets !! key_of job) as [widget|] eqn:Hw; [|done]. simpl.
  destruct (py_index_total (ConfigEntry.line_number job.2) (length l))
    as [Hraise|[idx Hidx]].
  { apply py_index_out_of_range in Hraise.
    rewrite (Hr job (or_introl eq_refl)) in Hraise. done. }
  rewrite Hidx. simpl. apply IH.
  - intros job' Hin'. rewrite length_insert. apply Hr. by right.
  - destruct Hin as [->|Hin]; [congruence|]. by exists bad.
Qed.

End WriterErrors.

(** X7. Missing widget: when some entry of a parsed document has no widget
    under its [(section, key)], saving stops with [KeyError] before the file
    is opened, and the stored file keeps its content. *)
Theorem X7_missing_widget_raises_key_error (lines : list str)
  (widgets : gmap (str * str) Widget) (file : list str) :
  covers widgets (parse_ini_with_comments lines).1 = false ->
  save_lines (parse_ini_with_comments lines).2
    (parse_ini_with_comments lines).1 widgets = Raise KeyError
  /\ save_ini (parse_ini_with_comments lines).2
       (parse_ini_with_comments lines).1 widgets file = file.
Proof.
  simpl. intros (job & Hin & Hjob)%forallb_false_exists.
  assert (save_lines lines (parse_loop lines 0 lines []) widgets = Raise KeyError)
    as Hraise.
  { unfold save_lines. rewrite save_sections_jobs.
    apply save_jobs_key_error; [apply parsed_jobs_in_range|].
    exists job. split; [done|].
    apply bool_decide_eq_false in Hjob.
    destruct (widgets !! key_of job) eqn:Hw; [|done].
    destruct Hjob. by eexists. }
  split; [done|]. unfold save_ini. by rewrite Hraise.
Qed.

(** A widget for [Foo] only, in a file that also has [Bar]. *)
Lemma X7_missing_widget_raises_key_error_witness :
  save_lines [line "[A]"; line "Foo=1"; line "Bar=2"]
    (parse_ini_with_comments [line "[A]"; line "Foo=1"; line "Bar=2"]).1
    {[ (str_of "A", str_of "Foo") := QSpinBox 1 ]}
  = Raise KeyError
  /\ save_ini [line "[A]"; line "Foo=1"; line "Bar=2"]
       (parse_ini_with_comments [line "[A]"; line "Foo=1"; line "Bar=2"]).1
       {[ (str_of "A", str_of "Foo") := QSpinBox 1 ]}
       [line "[A]"; line "Foo=1"; line "Bar=2"]
     = [line "[A]"; line "Foo=1"; line "Bar=2"].
Proof.
  apply (X7_missing_widget_raises_key_error
           [line "[A]"; line "Foo=1"; line "Bar=2"]
           {[ (str_of "A", str_of "Foo") := QSpinBox 1 ]}
           [line "[A]"; line "Foo=1"; line "Bar=2"]).
  vm_compute. reflexivity.
Defined.

Section ReadBack.

Implicit Types (s x ws : str) (e : ConfigEntry.t).

Lemma lstrip_pad ws x : forallb isspace ws = true -> lstrip (ws ++ x) = lstrip x.
Proof.
  induction ws as [|c ws IH]; simpl; [done|].
  intros [-> Hws]%andb_prop. by apply IH.
Qed.

Lemma rstrip_pad x ws : forallb isspace ws = true -> rstrip (x ++ ws) = rstrip x.
Proof.
  intros Hws. unfold rstrip. rewrite rev_app_distr, lstrip_pad; [done|].
  apply forallb_forall. intros c Hc%in_rev.
  rewrite forallb_forall in Hws. by apply Hws.
Qed.

Lemma strip_pad ws x ws' :
  forallb isspace ws = true -> forallb isspace ws' = true ->
  strip (ws ++ x ++ ws') = strip x.
Proof.
  intros Hws Hws'. unfold strip. rewrite lstrip_pad by done.
  by rewrite <- !lstrip_rstrip, rstrip_pad.
Qed.

Lemma trimmed_lstrip s : strip s = s -> lstrip s = s.
Proof. intros <-. apply lstrip_strip. Qed.

(** The trimmed text of a rewritten line. *)
Lemma strip_rewritten old e value :
  strip (ConfigEntry.name e) = ConfigEntry.name e ->
  strip (rewritten old e value) =
    ConfigEntry.name e ++ EQUALS ::
      (if is_empty (ConfigEntry.inline_comment e) then rstrip value
       else (value ++ [TAB; TAB; TAB]) ++ SEMI ::
              rstrip (SPACE :: ConfigEntry.inline_comment e)).
Proof.
  intros Hname. unfold rewritten.
  rewrite strip_pad;
    [|apply forallb_forall; by intros c [-> _]%list_elem_of_In%elem_of_replicate
     |done].
  unfold new_line.
  destruct (is_empty (ConfigEntry.inline_comment e)); simpl.
  - by rewrite strip_around, trimmed_lstrip.
  - rewrite strip_around, trimmed_lstrip by done. do 2 f_equal.
    by rewrite <- (rstrip_app_nonspace (value ++ [TAB; TAB; TAB]) SEMI),
      <- app_assoc.
Qed.

End ReadBack.

(** X8. Reading a rewritten line back: take an entry whose name has no [=]
    and whose name and inline comment are trimmed, as the parser makes them,
    and a value without [;].  The line the writer produces for it, split by
    the parser's entry branch, gives back the same name, the trimmed value
    and the same inline comment; the line is taken for an assignment unless
    the name starts with [;] or the new text has the shape of a header. *)
Theorem X8_rewritten_line_reads_back (lines : list str) (i : nat)
  (old : str) (e : ConfigEntry.t) (value : str) :
  contains EQUALS (ConfigEntry.name e) = false ->
  strip (ConfigEntry.name e) = ConfigEntry.name e ->
  strip (ConfigEntry.inline_comment e) = ConfigEntry.inline_comment e ->
  contains SEMI value = false ->
  exists k v,
    strip (rewritten old e value) = k ++ EQUALS :: v
    /\ contains EQUALS k = false
    /\ ConfigEntry.name (make_entry lines i k v) = ConfigEntry.name e
    /\ ConfigEntry.value (make_entry lines i k v) = strip value
    /\ ConfigEntry.inline_comment (make_entry lines i k v)
       = ConfigEntry.inline_comment e
    /\ is_assignment (rewritten old e value)
       = negb (startswith SEMI (ConfigEntry.name e))
         && negb (is_header (rewritten old e value)).
Proof.
  intros Hnk Hname Hinline Hvalue.
  pose proof (strip_rewritten old e value Hname) as Hstrip.
  eexists (ConfigEntry.name e), _. split; [exact Hstrip|]. split; [done|].
  split; [by rewrite make_entry_name|].
  split; [|split].
  - destruct (is_empty (ConfigEntry.inline_comment e)).
    + destruct (make_entry_plain lines i (ConfigEntry.name e) (rstrip value))
        as [-> _]; [by rewrite contains_rstrip|]. apply strip_rstrip.
    + destruct (make_entry_commented lines i (ConfigEntry.name e)
                  (value ++ [TAB; TAB; TAB])
                  (rstrip (SPACE :: ConfigEntry.inline_comment e))) as [-> _].
      { rewrite contains_app, Hvalue. reflexivity. }
      apply (strip_pad [] value [TAB; TAB; TAB]); reflexivity.
  - destruct (ConfigEntry.inline_comment e) as [|c inline] eqn:Hi.
    + simpl.
      by destruct (make_entry_plain lines i (ConfigEntry.name e) (rstrip value))
        as [_ ->]; [by rewrite contains_rstrip|].
    + simpl is_empty. cbv iota.
      destruct (make_entry_commented lines i (ConfigEntry.name e)
                  (value ++ [TAB; TAB; TAB])
                  (rstrip (SPACE :: c :: inline))) as [_ ->].
      { rewrite contains_app, Hvalue. reflexivity. }
      rewrite strip_rstrip.
      rewrite <- Hinline at 2.
      pose proof (strip_pad [SPACE] (c :: inline) [] eq_refl eq_refl) as Hpad.
      simpl in Hpad. by rewrite app_nil_r in Hpad.
  - unfold is_assignment, is_skipped. rewrite Hstrip.
    rewrite contains_app. simpl. rewrite orb_true_r, andb_true_r.
    f_equal. by destruct (ConfigEntry.name e).
Qed.

(** The entry [Foo] with the inline comment [keep], given the value [42]. *)
Lemma X8_rewritten_line_reads_back_witness :
  exists k v,
    strip (rewritten (str_of "  Foo = 1 ; keep" ++ [NL])
             (ConfigEntry.mk (str_of "Foo") (str_of "1") (str_of "keep") 1
                (str_of "keep"))
             (str_of "42"))
    = k ++ EQUALS :: v
    /\ ConfigEntry.name (make_entry [] 1 k v) = str_of "Foo"
    /\ ConfigEntry.value (make_entry [] 1 k v) = str_of "42"
    /\ ConfigEntry.inline_comment (make_entry [] 1 k v) = str_of "keep".
Proof.
  destruct (X8_rewritten_line_reads_back [] 1
              (str_of "  Foo = 1 ; keep" ++ [NL])
              (ConfigEntry.mk (str_of "Foo") (str_of "1") (str_of "keep") 1
                 (str_of "keep"))
              (str_of "42"))
    as (k & v & Hsplit & _ & Hname & Hvalue & Hinline & _);
    [reflexivity | reflexivity | reflexivity | reflexivity |].
  exists k, v. split; [exact Hsplit|]. split; [exact Hname|].
  split; [exact Hvalue | exact Hinline].
Defined.

(** * The widgets of the editor *)

Section Refresh.

Context (lib : Library).

Implicit Types (widgets : gmap (str * str) Widget) (e : ConfigEntry.t)
  (job : str * ConfigEntry.t) (js : list (str * ConfigEntry.t))
  (doc : list ConfigSection.t) (key : str * str).

Lemma refresh_sections_jobs doc widgets :
  refresh_sections lib doc widgets = bind_jobs lib (jobs doc) widgets.
Proof.
  revert widgets. induction doc as [|sec doc IH]; intros widgets; [done|].
  simpl. generalize (ConfigSection.name sec). intros name.
  induction (ConfigSection.entries sec) as [|e es IHe] in widgets |- *; simpl.
  - apply IH.
  - destruct (create_widget_for_value lib _ _ _); [apply IHe | done].
Qed.

Lemma bind_jobs_step job js widgets widgets' :
  bind_jobs lib (job :: js) widgets = Some widgets' <->
  exists widget,
    create_widget_for_value lib (ConfigEntry.value job.2)
      (ConfigEntry.name job.2) job.1 = Some widget
    /\ bind_jobs lib js (<[key_of job := widget]> widgets) = Some widgets'.
Proof.
  simpl. destruct (create_widget_for_value lib _ _ _) as [widget|]; simpl.
  - split; [by eauto | by intros (? & [= <-] & ?)].
  - split; [done | by intros (? & ? & _)].
Qed.

(** A key that no later iteration binds keeps its widget. *)
Lemma bind_jobs_untouched js widgets widgets' key :
  bind_jobs lib js widgets = Some widgets' ->
  (forall job, In job js -> key_of job <> key) ->
  widgets' !! key = widgets !! key.
Proof.
  revert widgets. induction js as [|job js IH]; intros widgets.
  - by intros [= <-].
  - intros (widget & _ & Hrest)%bind_jobs_step Hno.
    rewrite (IH _ Hrest) by (intros job' Hin; apply Hno; by right).
    apply lookup_insert_ne, Hno. by left.
Qed.

(** A bound key stays bound. *)
Lemma bind_jobs_mono js widgets widgets' key :
  bind_jobs lib js widgets = Some widgets' ->
  is_Some (widgets !! key) -> is_Some (widgets' !! key).
Proof.
  revert widgets. induction js as [|job js IH]; intros widgets.
  - by intros [= <-].
  - intros (widget & _ & Hrest)%bind_jobs_step Hkey.
    apply (IH _ Hrest). rewrite lookup_insert_is_Some.
    destruct (decide (key_of job = key)); by auto.
Qed.

Lemma bind_jobs_binds js widgets widgets' job :
  bind_jobs lib js widgets = Some widgets' ->
  In job js -> is_Some (widgets' !! key_of job).
Proof.
  revert widgets. induction js as [|job' js IH]; intros widgets; [by intros _ []|].
  intros (widget & _ & Hrest)%bind_jobs_step [->|Hin].
  - apply (bind_jobs_mono _ _ _ _ Hrest). rewrite lookup_insert_eq. by eexists.
  - by apply (IH _ Hrest).
Qed.

(** The widget under a key is the one built for the last entry with it. *)
Lemma bind_jobs_last js1 job js2 widgets widgets' :
  bind_jobs lib (js1 ++ job :: js2) widgets = Some widgets' ->
  (forall job', In job' js2 -> key_of job' <> key_of job) ->
  widgets' !! key_of job
  = create_widget_for_value lib (ConfigEntry.value job.2)
      (ConfigEntry.name job.2) job.1.
Proof.
  revert widgets. induction js1 as [|job1 js1 IH]; intros widgets.
  - simpl app. intros (widget & -> & Hrest)%bind_jobs_step Hno.
    rewrite (bind_jobs_untouched _ _ _ _ Hrest Hno). apply lookup_insert_eq.
  - simpl app. intros (widget & _ & Hrest)%bind_jobs_step Hno.
    by apply (IH _ Hrest).
Qed.

Lemma bind_jobs_succeeds js widgets :
  (forall job, In job js ->
     is_Some (create_widget_for_value lib (ConfigEntry.value job.2)
                (ConfigEntry.name job.2) job.1)) ->
  exists widgets', bind_jobs lib js widgets = Some widgets'.
Proof.
  revert widgets. induction js as [|job js IH]; intros widgets Hall.
  - by eexists.
  - destruct (Hall job (or_introl eq_refl)) as [widget Hw].
    destruct (IH (<[key_of job := widget]> widgets)) as [widgets' Hrest].
    { intros job' Hin. apply Hall. by right. }
    exists widgets'. apply bind_jobs_step. by exists widget.
Qed.

Lemma bind_jobs_creates js widgets widgets' job :
  bind_jobs lib js widgets = Some widgets' -> In job js ->
  is_Some (create_widget_for_value lib (ConfigEntry.value job.2)
             (ConfigEntry.name job.2) job.1).
Proof.
  revert widgets. induction js as [|job' js IH]; intros widgets; [by intros _ []|].
  intros (widget & Hw & Hrest)%bind_jobs_step [->|Hin]; [by eexists|].
  by apply (IH _ Hrest).
Qed.

Lemma creatable_spec doc :
  creatable lib doc = true <->
  forall job, In job (jobs doc) ->
    is_Some (create_widget_for_value lib (ConfigEntry.value job.2)
               (ConfigEntry.name job.2) job.1).
Proof.
  unfold creatable. rewrite forallb_forall. split; intros H job Hin.
  - eapply bool_decide_eq_true_1, H, Hin.
  - apply bool_decide_eq_true_2, H, Hin.
Qed.

Lemma later_keys_differ js key :
  forallb (fun job => negb (bool_decide (key_of job = key))) js = true ->
  forall job, In job js -> key_of job <> key.
Proof.
  rewrite forallb_forall. intros H job Hin Heq.
  apply H in Hin. apply negb_true_iff, bool_decide_eq_false in Hin. done.
Qed.

End Refresh.

(** X9. Widgets after a refresh: [refresh_ui] runs to its end exactly when
    a widget can be built for every entry.  It then leaves a widget under
    the [(section, key)] of every entry, and the widget found under a pair
    is the one built from the value of the last entry, in document order,
    that carries the pair: of two entries with the same section name and
    key, the later one decides. *)
Theorem X9_refresh_binds_last_entry (lib : Library)
  (doc : list ConfigSection.t) :
  (is_Some (refresh_ui lib doc) <-> creatable lib doc = true)
  /\ forall widgets, refresh_ui lib doc = Some widgets ->
       covers widgets doc = true
       /\ forall js1 job js2,
            jobs doc = js1 ++ job :: js2 ->
            forallb (fun job' => negb (bool_decide (key_of job' = key_of job)))
              js2 = true ->
            widgets !! key_of job
            = create_widget_for_value lib (ConfigEntry.value job.2)
                (ConfigEntry.name job.2) job.1.
Proof.
  unfold refresh_ui. rewrite refresh_sections_jobs. split.
  - rewrite creatable_spec. split.
    + intros [widgets Hw] job Hin. by eapply bind_jobs_creates.
    + intros Hall. by apply bind_jobs_succeeds.
  - intros widgets Hw. split.
    + apply covers_spec. intros job Hin. by eapply bind_jobs_binds.
    + intros js1 job js2 Hjobs Hlater. rewrite Hjobs in Hw.
      eapply bind_jobs_last; [exact Hw|]. by apply later_keys_differ.
Qed.

(** X10. Load, then save: when a widget can be built for every entry of
    the parsed file, loading succeeds and a save that follows it raises
    nothing; the lines it writes are as many as were read, and every line
    that is not the source line of an entry is written as it was read.
    When some entry has no widget to be built, loading fails. *)
Theorem X10_load_then_save (lib : Library) (lines : list str) :
  let doc := (parse_ini_with_comments lines).1 in
  (creatable lib doc = false -> load_ini lib lines = None)
  /\ (creatable lib doc = true ->
      exists widgets out,
        load_ini lib lines = Some (doc, lines, widgets)
        /\ save_lines lines doc widgets = Ok out
        /\ length out = length lines
        /\ forall i,
             (forall sec e, In sec doc -> In e (ConfigSection.entries sec) ->
                ConfigEntry.line_number e <> Z.of_nat i) ->
             out !! i = lines !! i).
Proof.
  simpl. unfold load_ini. simpl. unfold refresh_ui.
  rewrite refresh_sections_jobs.
  set (doc := parse_loop lines 0 lines []). split.
  - intros Hno.
    destruct (bind_jobs lib (jobs doc) ∅) as [widgets|] eqn:Hw; [|done].
    exfalso. assert (creatable lib doc = true) as Hyes; [|congruence].
    apply creatable_spec. intros job Hin. by eapply bind_jobs_creates.
  - intros Hall.
    destruct (bind_jobs_succeeds lib (jobs doc) ∅) as [widgets Hw];
      [by apply creatable_spec|].
    assert (covers widgets doc = true) as Hcov.
    { apply covers_spec. intros job Hin. by eapply bind_jobs_binds. }
    destruct (save_parsed_lines lines widgets Hcov)
      as (out & Hout & Hlen & Hsame & _).
    exists widgets, out. rewrite Hw. by repeat split.
Qed.

(** A file of one section, loaded and saved. *)
Lemma X10_load_then_save_witness :
  exists widgets out,
    load_ini example_library [line "; top"; line "[Hotkeys]"; line "Save = Ctrl+S"]
    = Some ((parse_ini_with_comments
               [line "; top"; line "[Hotkeys]"; line "Save = Ctrl+S"]).1,
            [line "; top"; line "[Hotkeys]"; line "Save = Ctrl+S"], widgets)
    /\ save_lines [line "; top"; line "[Hotkeys]"; line "Save = Ctrl+S"]
         (parse_ini_with_comments
            [line "; top"; line "[Hotkeys]"; line "Save = Ctrl+S"]).1 widgets
       = Ok out
    /\ length out = 3.
Proof.
  destruct (X10_load_then_save example_library
              [line "; top"; line "[Hotkeys]"; line "Save = Ctrl+S"])
    as [_ Hok].
  destruct Hok as (widgets & out & Hload & Hsave & Hlen & _);
    [vm_compute; reflexivity|].
  exists widgets, out. split; [exact Hload|]. split; [exact Hsave | exact Hlen].
Defined.

(** X11. Entries that share a key: load a file and save it at once.  Every
    entry that carries the section name and key of [job], the last entry in
    document order to carry them, has its line written with the value of the
    widget built for [job]: an earlier entry with the same section name and
    key gets the value of the last one. *)
Theorem X11_same_key_saved_with_last_value (lib : Library) (lines : list str)
  (js1 : list (str * ConfigEntry.t)) (job : str * ConfigEntry.t)
  (js2 : list (str * ConfigEntry.t)) :
  let doc := (parse_ini_with_comments lines).1 in
  creatable lib doc = true ->
  jobs doc = js1 ++ job :: js2 ->
  forallb (fun job' => negb (bool_decide (key_of job' = key_of job))) js2 = true ->
  exists widget widgets out,
    create_widget_for_value lib (ConfigEntry.value job.2)
      (ConfigEntry.name job.2) job.1 = Some widget
    /\ load_ini lib lines = Some (doc, lines, widgets)
    /\ save_lines lines doc widgets = Ok out
    /\ forall sec e,
         In sec doc -> In e (ConfigSection.entries sec) ->
         (ConfigSection.name sec, ConfigEntry.name e) = key_of job ->
         exists i old indent,
           ConfigEntry.line_number e = Z.of_nat i
           /\ lines !! i = Some old
           /\ length indent = leading_space old
           /\ out !! i = Some (indent ++ new_line e (widget_value widget) ++ [NL]).
Proof.
  simpl. intros Hall Hjobs Hlater. unfold load_ini. simpl. unfold refresh_ui.
  rewrite refresh_sections_jobs.
  set (doc := parse_loop lines 0 lines []) in *.
  destruct (bind_jobs_succeeds lib (jobs doc) ∅) as [widgets Hw];
    [by apply creatable_spec|].
  assert (covers widgets doc = true) as Hcov.
  { apply covers_spec. intros job' Hin. by eapply bind_jobs_binds. }
  destruct (save_parsed_lines lines widgets Hcov)
    as (out & Hout & _ & _ & Hentries).
  assert (widgets !! key_of job
          = create_widget_for_value lib (ConfigEntry.value job.2)
              (ConfigEntry.name job.2) job.1) as Hlast.
  { rewrite Hjobs in Hw. eapply bind_jobs_last; [exact Hw|].
    by apply later_keys_differ. }
  destruct (bind_jobs_binds lib _ _ _ job Hw) as [widget Hwidget].
  { rewrite Hjobs. apply in_app_iff. right. by left. }
  exists widget, widgets, out. rewrite Hw.
  split; [congruence|]. split; [done|]. split; [done|].
  intros sec e Hsec He Hkey.
  destruct (Hentries sec e Hsec He)
    as (i & widget' & old & indent & Hln & Hw' & Hold & Hlen & Hline).
  simpl in Hw'. rewrite Hkey, Hwidget in Hw'. injection Hw' as <-.
  by exists i, old, indent.
Qed.

(** [Save] twice under [[Hotkeys]]: both lines get the value of the second. *)
Lemma X11_same_key_saved_with_last_value_witness :
  exists widget widgets out,
    create_widget_for_value example_library (str_of "b") (str_of "Save")
      (str_of "Hotkeys") = Some widget
    /\ load_ini example_library [line "[Hotkeys]"; line "Save=a"; line "Save=b"]
       = Some ((parse_ini_with_comments
                  [line "[Hotkeys]"; line "Save=a"; line "Save=b"]).1,
               [line "[Hotkeys]"; line "Save=a"; line "Save=b"], widgets)
    /\ save_lines [line "[Hotkeys]"; line "Save=a"; line "Save=b"]
         (parse_ini_with_comments
            [line "[Hotkeys]"; line "Save=a"; line "Save=b"]).1 widgets
       = Ok out.
Proof.
  destruct (X11_same_key_saved_with_last_value example_library
              [line "[Hotkeys]"; line "Save=a"; line "Save=b"]
              [(str_of "Hotkeys",
                ConfigEntry.mk (str_of "Save") (str_of "a") [] 1 [])]
              (str_of "Hotkeys",
               ConfigEntry.mk (str_of "Save") (str_of "b") [] 2 [])
              [])
    as (widget & widgets & out & Hwidget & Hload & Hsave & _);
    [vm_compute; reflexivity | reflexivity | reflexivity |].
  exists widget, widgets, out.
  split; [exact Hwidget|]. split; [exact Hload | exact Hsave].
Defined.

(** X12. Values read back unchanged: for a field that always gets a line
    edit (sections [Hotkeys] and [Log], key [uTintMaskResolution]) the widget
    is built without any call that can raise and gives back the value as it
    is.  For any other key than [nCharset] and [uUIDarkThemeId], a value
    whose lower-case form is [true] or [false] gives back that lower-case
    form, and a value that is not all digits gives back the value as it
    is. *)
Theorem X12_value_read_back (lib : Library)
  (value entry_name section_name : str) :
  is_free_text entry_name section_name
  || negb (bool_decide (entry_name = str_of "nCharset"))
     && negb (bool_decide (entry_name = str_of "uUIDarkThemeId"))
     && (is_boolean_text lib value || negb (py_isdigit lib value)) = true ->
  exists widget,
    create_widget_for_value lib value entry_name section_name = Some widget
    /\ widget_value widget =
         if is_free_text entry_name section_name then value
         else if is_boolean_text lib value then py_lower lib value
         else value.
Proof.
  unfold create_widget_for_value.
  destruct (is_free_text entry_name section_name); simpl; [by eauto|].
  intros [[Hc Ht]%andb_prop Hv]%andb_prop.
  apply negb_true_iff in Hc, Ht. rewrite Hc, Ht.
  destruct (is_boolean_text lib value) eqn:Hb.
  - eexists. split; [done|]. simpl.
    unfold is_boolean_text in Hb.
    destruct (bool_decide (py_lower lib value = str_of "true")) eqn:Htrue.
    + apply bool_decide_eq_true in Htrue. by rewrite Htrue.
    + simpl in Hb. apply bool_decide_eq_true in Hb. by rewrite Hb.
  - simpl in Hv. apply negb_true_iff in Hv. rewrite Hv. by eauto.
Qed.

(** [True] under the key [bEnabled] comes back as [true]. *)
Lemma X12_value_read_back_witness :
  exists widget,
    create_widget_for_value example_library (str_of "True") (str_of "bEnabled")
      (str_of "General") = Some widget
    /\ widget_value widget = str_of "true".
Proof.
  apply (X12_value_read_back example_library (str_of "True")
           (str_of "bEnabled") (str_of "General")).
  reflexivity.
Defined.

(** X13. The section of an entry: an entry is stored in the section of the
    last header line above it; no header line lies between the header of
    its section and the entry's own line. *)
Theorem X13_entry_under_last_header (lines : list str)
  (sec : ConfigSection.t) (e : ConfigEntry.t) (j : nat) (raw : str) :
  In sec (parse_ini_with_comments lines).1 ->
  In e (ConfigSection.entries sec) ->
  lines !! j = Some raw ->
  is_header raw = true ->
  (Z.of_nat j < ConfigEntry.line_number e)%Z ->
  (Z.of_nat j <= ConfigSection.line_number sec)%Z.
Proof.
  simpl. intros Hsec He Hj Hh Hlt.
  destruct (scanned_parse lines) as [Hs _].
  destruct (section_of_header lines j raw Hj Hh) as (sec' & Hsec' & _ & Hln').
  apply in_split in Hsec as (before & after & Hdoc).
  rewrite Hdoc in Hsec', Hs. apply in_app_iff in Hsec' as [Hin|[<-|Hin]].
  - pose proof (sorted_section_after_earlier before sec after _ Hs
                  (in_traversal_section _ _ Hin)). lia.
  - lia.
  - apply in_split in Hin as (mid & rest & ->).
    replace (before ++ sec :: mid ++ sec' :: rest)
      with ((before ++ sec :: mid) ++ sec' :: rest) in Hs
      by (by rewrite <- app_assoc).
    assert (In (ConfigEntry.line_number e) (traversal (before ++ sec :: mid)))
      as Hin.
    { apply (in_traversal_entry _ sec); [|done].
      apply in_app_iff. right. by left. }
    pose proof (sorted_section_after_earlier _ sec' rest _ Hs Hin). lia.
Qed.

(** The entry of line 3 sits in the section of line 2; the header of line 0
    is above both. *)
Lemma X13_entry_under_last_header_witness :
  is_header (line "[A]") = true /\ (Z.of_nat 0 <= 2)%Z.
Proof.
  split; [reflexivity|].
  apply (X13_entry_under_last_header
           [line "[A]"; line "a=1"; line "[B]"; line "b=2"]
           (ConfigSection.mk (str_of "B") [] 2
              [ConfigEntry.mk (str_of "b") (str_of "2") [] 3 []])
           (ConfigEntry.mk (str_of "b") (str_of "2") [] 3 []) 0 (line "[A]")).
  - right. left. reflexivity.
  - left. reflexivity.
  - reflexivity.
  - reflexivity.
  - reflexivity.
Defined.
